(** * Auto Mode Service: scheduling engine of the feature board

    A shallow embedding of [app/electron/auto-mode-service.js] (class
    [AutoModeService]): the registry of running features, the periodic
    admission tick, the per-feature operations (run, verify, resume,
    follow-up, commit) and the statuses they persist.

    The service is a JavaScript object mutated by [async] methods.  Each
    method is embedded as a computation over an explicit state that threads
    the registry ([runningFeatures]), the feature store behind
    [featureLoader], and the trace of externally visible effects, and that
    may terminate by a thrown error (the state reached at the [throw] is
    kept, as a [finally] block needs it). *)

From stdpp Require Import gmap strings list.

Open Scope Z_scope.
Open Scope string_scope.
Open Scope list_scope.

(** ** Data model *)

(** The feature statuses the service reads and writes. *)
Inductive Status : Type :=
| backlog
| in_progress
| waiting_approval
| verified
| completed.

#[global] Instance Status_eq_dec : EqDecision Status.
Proof. solve_decision. Defined.

(** A feature as stored by the feature loader.  The description and
    category are payload forwarded to the executor and are left out. *)
Module Feature.
Record t : Type := mk {
  id : string;
  status : Status;
  dependencies : list string;
  skipTests : bool
}.
End Feature.

(** [{ passes, message }], the value the executor and the verifier resolve to. *)
Record RunResult : Type := mkRunResult {
  passes : bool;
  message : string
}.

(** The execution context built by [createExecutionContext] and completed
    by its callers; the abort controller and the query start as [null] and
    are owned by the executor. *)
Record Execution : Type := mkExecution {
  projectPath : string
}.

(** Errors raised with [throw new Error(...)], and the rejection of an
    awaited collaborator. *)
Inductive Error : Type :=
| AlreadyRunning (featureId : string)
| NotFound (featureId : string)
| ExecutorFailure (reason : string).

(** Messages handed to [sendToRenderer]. *)
Inductive RendererEvent : Type :=
| auto_mode_feature_start (featureId : string)
| auto_mode_phase (featureId : string)
| auto_mode_progress (featureId : string) (attempt : nat)
| auto_mode_feature_complete (featureId : string) (passed : bool) (msg : string)
| auto_mode_error (featureId : string) (error : Error).

(** The four entry points of [featureExecutor] / [featureVerifier]. *)
Inductive ExecKind : Type :=
| implementFeature
| resumeFeatureWithContext
| verifyFeatureTests
| commitChangesOnly.

(** One externally visible effect of the service. *)
Inductive Effect : Type :=
| SendToRenderer (e : RendererEvent)
| UpdateFeatureStatus (featureId : string) (s : Status)
| WriteToContextFile (featureId : string) (attempt : nat)
| Invoke (k : ExecKind) (featureId : string).

#[global] Instance ExecKind_eq_dec : EqDecision ExecKind.
Proof. solve_decision. Defined.

(** The service object together with the store it talks to. *)
Record State : Type := mkState {
  runningFeatures : gmap string Execution;
  maxConcurrency : Z;
  store : list Feature.t;
  trace : list Effect
}.

Definition set_running (r : gmap string Execution) (st : State) : State :=
  mkState r (maxConcurrency st) (store st) (trace st).

Definition set_store (l : list Feature.t) (st : State) : State :=
  mkState (runningFeatures st) (maxConcurrency st) l (trace st).

Definition log (e : Effect) (st : State) : State :=
  mkState (runningFeatures st) (maxConcurrency st) (store st) (trace st ++ [e]).

(** ** Computations: state passing with thrown errors *)

Inductive Result (A : Type) : Type :=
| Ok (a : A)
| Throw (e : Error).
Arguments Ok {A} a.
Arguments Throw {A} e.

Definition M (A : Type) : Type := State -> Result A * State.

Definition ret {A} (a : A) : M A := fun st => (Ok a, st).

Definition throw {A} (e : Error) : M A := fun st => (Throw e, st).

Definition bind {A B} (c : M A) (k : A -> M B) : M B := fun st =>
  match c st with
  | (Ok a, st') => k a st'
  | (Throw e, st') => (Throw e, st')
  end.

Notation "'let*' x ':=' c 'in' k" := (bind c (fun x => k))
  (at level 10, x name, c at level 100, k at level 200).
Notation "c1 ;; c2" := (bind c1 (fun _ => c2))
  (at level 100, c2 at level 200, right associativity).

(** [try { body } catch (error) { handler error }] *)
Definition try_catch {A} (body : M A) (handler : Error -> M A) : M A := fun st =>
  match body st with
  | (Ok a, st') => (Ok a, st')
  | (Throw e, st') => handler e st'
  end.

(** [try { body } finally { cleanup }]: the cleanup runs however the body
    ended; an error of the cleanup itself replaces the body's outcome. *)
Definition try_finally {A} (body : M A) (cleanup : M unit) : M A := fun st =>
  match body st with
  | (r, st') =>
      match cleanup st' with
      | (Ok _, st'') => (r, st'')
      | (Throw e, st'') => (Throw e, st'')
      end
  end.

(** ** The registry: [this.runningFeatures], a [Map] keyed by feature id *)

(** [this.runningFeatures.has(featureId)] *)
Definition has (featureId : string) : M bool := fun st =>
  (Ok (bool_decide (is_Some (runningFeatures st !! featureId))), st).

(** [createExecutionContext], the two assignments and
    [this.runningFeatures.set(featureId, execution)]. *)
Definition register (featureId path : string) : M unit := fun st =>
  (Ok tt, set_running (<[featureId := mkExecution path]> (runningFeatures st)) st).

(** [this.runningFeatures.delete(featureId)] *)
Definition unregister (featureId : string) : M unit := fun st =>
  (Ok tt, set_running (delete featureId (runningFeatures st)) st).

(** [this.runningFeatures.size] *)
Definition runningCount (st : State) : nat := size (runningFeatures st).

(** ** Collaborators *)

(** [sendToRenderer(event)] *)
Definition sendToRenderer (e : RendererEvent) : M unit := fun st =>
  (Ok tt, log (SendToRenderer e) st).

(** [featureLoader.loadFeatures(projectPath)]: the store is read in full. *)
Definition loadFeatures (path : string) : M (list Feature.t) := fun st =>
  (Ok (store st), st).

(** [features.find((f) => f.id === featureId)] *)
Definition find_feature (featureId : string) (features : list Feature.t)
  : option Feature.t :=
  List.find (fun f => bool_decide (Feature.id f = featureId)) features.

Definition with_status (s : Status) (f : Feature.t) : Feature.t :=
  Feature.mk (Feature.id f) s (Feature.dependencies f) (Feature.skipTests f).

(** Modelled from the spec: the body of [featureLoader.updateFeatureStatus]
    is not part of the sources at hand.  The store contract reads
    [setStatus(id, newStatus, projectScope) -> ok | fails(NotFound)]: the
    status of the item carrying the id is replaced, and the call fails when
    no item carries it.  The item written is the one [find] returns. *)
Fixpoint setStatus (featureId : string) (s : Status) (l : list Feature.t)
  : option (list Feature.t) :=
  match l with
  | [] => None
  | f :: l' =>
      if bool_decide (Feature.id f = featureId)
      then Some (with_status s f :: l')
      else match setStatus featureId s l' with
           | Some l'' => Some (f :: l'')
           | None => None
           end
  end.

(** [await featureLoader.updateFeatureStatus(featureId, status, projectPath)]:
    a failed write rejects, which the [await] rethrows. *)
Definition updateFeatureStatus (featureId : string) (s : Status) (path : string)
  : M unit := fun st =>
  match setStatus featureId s (store st) with
  | Some l => (Ok tt, log (UpdateFeatureStatus featureId s) (set_store l st))
  | None => (Throw (NotFound featureId), st)
  end.

(** [contextManager.writeToContextFile]: text appended to the context file
    of a feature, the marker of retry number [attempt] or, numbered [0],
    the instructions of a follow-up. *)
Definition writeToContextFile (featureId : string) (attempt : nat) : M unit :=
  fun st => (Ok tt, log (WriteToContextFile featureId attempt) st).

(** The executor is outside the service.  It is a parameter: given the
    number of invocations made so far, the entry point, the feature and
    the store as it stands, it tells how the invocation ends (a result or
    a thrown error) and what the store holds when it ends (the agent and
    the user edit the feature list while a run is in flight). *)
Definition Executor : Type :=
  nat -> ExecKind -> Feature.t -> list Feature.t
  -> Result RunResult * list Feature.t.

Definition is_invoke (e : Effect) : bool :=
  match e with Invoke _ _ => true | _ => false end.

(** Number of executor invocations recorded in a trace. *)
Definition invocations (tr : list Effect) : nat :=
  length (List.filter is_invoke tr).

(** [await featureExecutor.<k>(feature, projectPath, sendToRenderer, ...)] *)
Definition invoke (exec : Executor) (k : ExecKind) (feature : Feature.t)
  : M RunResult := fun st =>
  match exec (invocations (trace st)) k feature (store st) with
  | (r, l) => (r, set_store l (log (Invoke k (Feature.id feature)) st))
  end.

(** ** Status written when a run ends *)

(** [result.passes ? (feature.skipTests ? "waiting_approval" : "verified") : failed] *)
Definition statusAfter (failed : Status) (feature : Feature.t) (result : RunResult)
  : Status :=
  if passes result
  then (if Feature.skipTests feature then waiting_approval else verified)
  else failed.

(** ** Per-feature operations *)

(** The statements that open [runFeature], [verifyFeature],
    [resumeFeature] and [followUpFeature], word for word the same in the
    four: [if (this.runningFeatures.has(featureId)) throw ...], then the
    registration.  They run before the first [await] of the method. *)
Definition reserve (featureId path : string) : M unit :=
  let* running := has featureId in
  (if running then throw (AlreadyRunning featureId) else ret tt) ;;
  register featureId path.

(** [runFeature({ projectPath, featureId, sendToRenderer })]; the value is
    the [passes] field of the object returned. *)
Definition runFeature (exec : Executor) (path featureId : string) : M bool :=
  reserve featureId path ;;
  try_finally
    (try_catch
       (let* features := loadFeatures path in
        match find_feature featureId features with
        | None => throw (NotFound featureId)
        | Some feature =>
            updateFeatureStatus featureId in_progress path ;;
            sendToRenderer (auto_mode_feature_start (Feature.id feature)) ;;
            let* result := invoke exec implementFeature feature in
            let newStatus := statusAfter backlog feature result in
            updateFeatureStatus (Feature.id feature) newStatus path ;;
            sendToRenderer
              (auto_mode_feature_complete (Feature.id feature)
                 (passes result) (message result)) ;;
            ret (passes result)
        end)
       (fun error =>
          sendToRenderer (auto_mode_error featureId error) ;;
          throw error))
    (unregister featureId).

(** [verifyFeature({ projectPath, featureId, sendToRenderer })] *)
Definition verifyFeature (exec : Executor) (path featureId : string) : M bool :=
  reserve featureId path ;;
  try_finally
    (try_catch
       (let* features := loadFeatures path in
        match find_feature featureId features with
        | None => throw (NotFound featureId)
        | Some feature =>
            sendToRenderer (auto_mode_feature_start (Feature.id feature)) ;;
            let* result := invoke exec verifyFeatureTests feature in
            let newStatus := if passes result then verified else in_progress in
            updateFeatureStatus featureId newStatus path ;;
            sendToRenderer
              (auto_mode_feature_complete (Feature.id feature)
                 (passes result) (message result)) ;;
            ret (passes result)
        end)
       (fun error =>
          sendToRenderer (auto_mode_error featureId error) ;;
          throw error))
    (unregister featureId).

Definition maxAttempts : nat := 3.

(** The [while (!finalResult.passes && attempts < maxAttempts)] loop of
    [resumeFeature].  [attempts] and [finalResult] are the loop variables;
    [fuel] bounds the number of iterations still unfolded (the loop is
    entered with [maxAttempts] of it, see [retryLoop_fuel]).  Reading the
    context file changes nothing and its text is payload of the executor. *)
Fixpoint retryLoop (exec : Executor) (path featureId : string)
    (feature : Feature.t) (fuel attempts : nat) (finalResult : RunResult)
  : M RunResult :=
  match fuel with
  | O => ret finalResult
  | S fuel' =>
      if negb (passes finalResult) && bool_decide (attempts < maxAttempts)%nat
      then
        let* updatedFeatures := loadFeatures path in
        match find_feature featureId updatedFeatures with
        | Some updatedFeature =>
            if bool_decide (Feature.status updatedFeature = in_progress)
            then
              let attempts := S attempts in
              writeToContextFile featureId attempts ;;
              sendToRenderer (auto_mode_progress (Feature.id feature) attempts) ;;
              let* result := invoke exec resumeFeatureWithContext feature in
              retryLoop exec path featureId feature fuel' attempts result
            else ret finalResult
        | None => ret finalResult
        end
      else ret finalResult
  end.

(** [resumeFeature({ projectPath, featureId, sendToRenderer })] *)
Definition resumeFeature (exec : Executor) (path featureId : string) : M bool :=
  reserve featureId path ;;
  try_finally
    (try_catch
       (let* features := loadFeatures path in
        match find_feature featureId features with
        | None => throw (NotFound featureId)
        | Some feature =>
            sendToRenderer (auto_mode_feature_start (Feature.id feature)) ;;
            let* result := invoke exec resumeFeatureWithContext feature in
            let* finalResult :=
              retryLoop exec path featureId feature maxAttempts 0 result in
            let newStatus := statusAfter in_progress feature finalResult in
            updateFeatureStatus featureId newStatus path ;;
            sendToRenderer
              (auto_mode_feature_complete (Feature.id feature)
                 (passes finalResult) (message finalResult)) ;;
            ret (passes finalResult)
        end)
       (fun error =>
          sendToRenderer (auto_mode_error featureId error) ;;
          throw error))
    (unregister featureId).

(** [followUpFeature({ projectPath, featureId, prompt, ... })] up to its
    [return]: the follow-up work is started without being awaited. *)
Definition followUpFeature (path featureId : string) : M unit :=
  reserve featureId path.

(** [runFollowUpWork({ projectPath, featureId, prompt, ... })], the work
    [followUpFeature] leaves running. *)
Definition runFollowUpWork (exec : Executor) (path featureId : string) : M unit :=
  try_finally
    (try_catch
       (let* features := loadFeatures path in
        match find_feature featureId features with
        | None => throw (NotFound featureId)
        | Some feature =>
            updateFeatureStatus featureId in_progress path ;;
            sendToRenderer (auto_mode_feature_start (Feature.id feature)) ;;
            writeToContextFile featureId 0 ;;
            let* result := invoke exec resumeFeatureWithContext feature in
            let newStatus := statusAfter in_progress feature result in
            updateFeatureStatus (Feature.id feature) newStatus path ;;
            sendToRenderer
              (auto_mode_feature_complete (Feature.id feature)
                 (passes result) (message result))
        end)
       (fun error => sendToRenderer (auto_mode_error featureId error)))
    (unregister featureId).

(** [commitFeature({ projectPath, featureId, sendToRenderer })] *)
Definition commitFeature (exec : Executor) (path featureId : string) : M unit :=
  register featureId path ;;
  try_finally
    (try_catch
       (let* features := loadFeatures path in
        match find_feature featureId features with
        | None => throw (NotFound featureId)
        | Some feature =>
            sendToRenderer (auto_mode_feature_start (Feature.id feature)) ;;
            sendToRenderer (auto_mode_phase featureId) ;;
            invoke exec commitChangesOnly feature ;;
            updateFeatureStatus featureId verified path ;;
            sendToRenderer
              (auto_mode_feature_complete (Feature.id feature) true
                 "Changes committed successfully")
        end)
       (fun error =>
          sendToRenderer (auto_mode_error featureId error) ;;
          throw error))
    (unregister featureId).

(** ** The admission loop *)

(** [startFeatureAsync(feature, projectPath, sendToRenderer)]; the log
    line that quotes the description is left out with the description. *)
Definition startFeatureAsync (exec : Executor) (feature : Feature.t)
    (path : string) : M unit :=
  let featureId := Feature.id feature in
  let* running := has featureId in
  if running then ret tt else
  try_finally
    (try_catch
       (register featureId path ;;
        updateFeatureStatus featureId in_progress path ;;
        sendToRenderer (auto_mode_feature_start (Feature.id feature)) ;;
        let* result := invoke exec implementFeature feature in
        let newStatus := statusAfter backlog feature result in
        updateFeatureStatus (Feature.id feature) newStatus path ;;
        sendToRenderer
          (auto_mode_feature_complete (Feature.id feature)
             (passes result) (message result)))
       (fun error => sendToRenderer (auto_mode_error featureId error)))
    (unregister featureId).

(** [startFeatureAsync] up to its first [await]: the guard and the
    registration.  The value tells whether work was left running. *)
Definition startFeatureAsync_sync (feature : Feature.t) (path : string) : M bool :=
  let featureId := Feature.id feature in
  let* running := has featureId in
  if running then ret false else
  register featureId path ;;
  ret true.

(** [startFeatureAsync] from its first [await] on. *)
Definition startFeatureAsync_rest (exec : Executor) (feature : Feature.t)
    (path : string) : M unit :=
  let featureId := Feature.id feature in
  try_finally
    (try_catch
       (updateFeatureStatus featureId in_progress path ;;
        sendToRenderer (auto_mode_feature_start (Feature.id feature)) ;;
        let* result := invoke exec implementFeature feature in
        let newStatus := statusAfter backlog feature result in
        updateFeatureStatus (Feature.id feature) newStatus path ;;
        sendToRenderer
          (auto_mode_feature_complete (Feature.id feature)
             (passes result) (message result)))
       (fun error => sendToRenderer (auto_mode_error featureId error)))
    (unregister featureId).

(** [features.filter((f) => f.status === "backlog")] *)
Definition backlogFeatures (features : list Feature.t) : list Feature.t :=
  List.filter (fun f => bool_decide (Feature.status f = backlog)) features.

(** [backlogFeatures.slice(0, availableSlots)], for [availableSlots > 0] *)
Definition featuresToStart (availableSlots : Z) (features : list Feature.t)
  : list Feature.t :=
  take (Z.to_nat availableSlots) (backlogFeatures features).

(** [for (const feature of featuresToStart) this.startFeatureAsync(...)]:
    the calls are not awaited, so each runs to its first [await] before
    the next begins.  The value lists the features left running. *)
Fixpoint startEach (features : list Feature.t) (path : string)
  : M (list Feature.t) :=
  match features with
  | [] => ret []
  | feature :: rest =>
      let* started := startFeatureAsync_sync feature path in
      let* others := startEach rest path in
      ret (if started then feature :: others else others)
  end.

(** [this.maxConcurrency - this.runningFeatures.size] *)
Definition availableSlots (st : State) : Z :=
  maxConcurrency st - Z.of_nat (runningCount st).

(** [checkAndStartFeatures] after [await featureLoader.loadFeatures]
    resolved, with the [availableSlots] computed before it. *)
Definition startFromBacklog (slots : Z) (path : string) : M (list Feature.t) :=
  let* features := loadFeatures path in
  if bool_decide (length (backlogFeatures features) = 0%nat) then ret [] else
  startEach (featuresToStart slots features) path.

(** [checkAndStartFeatures(projectPath, sendToRenderer)], one tick of the
    periodic loop.  Nothing in its [try] block throws here (the store read
    is total), so the [catch] that logs is left out. *)
Definition checkAndStartFeatures (path : string) : M (list Feature.t) :=
  fun st =>
    let slots := availableSlots st in
    if bool_decide (slots <= 0) then (Ok [], st)
    else startFromBacklog slots path st.

(** One way the runs a tick started can unfold: each started feature's
    [startFeatureAsync] is carried from its first [await] to its end, one
    after the other in the order of the [for] loop. *)
Fixpoint runEach (exec : Executor) (features : list Feature.t) (path : string)
  : M unit :=
  match features with
  | [] => ret tt
  | feature :: rest =>
      startFeatureAsync_rest exec feature path ;;
      runEach exec rest path
  end.

Definition tickThenRuns (exec : Executor) (path : string) : M unit :=
  let* started := checkAndStartFeatures path in
  runEach exec started path.

(** ** Dependency resolver *)

(** The statuses that satisfy a dependency: [completed] and [verified]. *)
Definition satisfied (s : Status) : bool :=
  match s with
  | verified | completed => true
  | _ => false
  end.

(** Modelled from the spec: [getBlockingDependencies] lives in the package
    [@automaker/dependency-resolver], which the graph view imports and
    whose body is not part of the sources at hand.  Its contract reads
    [blockingDependencies(item, allItems) -> list of dependency ids]: a
    declared id is blocking when its item is in [allItems] with a status
    outside the satisfied set; ids absent from [allItems] are dropped. *)
Definition blockingDependencies (item : Feature.t) (allItems : list Feature.t)
  : list string :=
  List.filter
    (fun depId =>
       match find_feature depId allItems with
       | Some dep => negb (satisfied (Feature.status dep))
       | None => false
       end)
    (Feature.dependencies item).

(** Modelled from the spec: an item is ready iff [blockingDependencies]
    returns empty and its own status is [backlog]. *)
Definition ready (item : Feature.t) (allItems : list Feature.t) : bool :=
  bool_decide (blockingDependencies item allItems = [])
  && bool_decide (Feature.status item = backlog).

(** ** Observations *)

(** What a computation appended to the trace. *)
Definition effects_of {A} (c : M A) (st : State) : list Effect :=
  drop (length (trace st)) (trace (snd (c st))).

(** Status of the item [find] returns for an id. *)
Definition status_of (featureId : string) (features : list Feature.t)
  : option Status :=
  Feature.status <$> find_feature featureId features.

(** Scans the effects of a run: [true] when every executor invocation for
    [featureId] comes while the last status the service wrote for that id
    is [in_progress]; [current] tells whether that holds on entry. *)
Fixpoint invoked_in_progress (featureId : string) (current : bool)
    (effects : list Effect) : bool :=
  match effects with
  | [] => true
  | UpdateFeatureStatus i s :: rest =>
      if bool_decide (i = featureId)
      then invoked_in_progress featureId (bool_decide (s = in_progress)) rest
      else invoked_in_progress featureId current rest
  | Invoke _ i :: rest =>
      (if bool_decide (i = featureId) then current else true)
      && invoked_in_progress featureId current rest
  | _ :: rest => invoked_in_progress featureId current rest
  end.

(** ** Interleavings *)

(** The service runs on one thread: between two [await]s a method runs
    alone.  A schedule lists such uninterrupted stretches.  A tick of the
    loop has two, split by [await featureLoader.loadFeatures]; the slots
    it computed before the [await] are kept in [pendingTick].  Ticks are
    5 seconds apart and a schedule in which one begins before the previous
    one resumed is not described ([None]). *)
Record System : Type := mkSystem {
  service : State;
  pendingTick : option Z
}.

Inductive Step : Type :=
| TickBegin
| TickResume (path : string)
| Finish (featureId : string)
| StoreWrite (features : list Feature.t)
| ManualStart (featureId path : string)
| CommitStart (featureId path : string).

Definition step (s : Step) (sys : System) : option System :=
  match s, pendingTick sys with
  | TickBegin, None =>
      let slots := availableSlots (service sys) in
      Some (mkSystem (service sys)
              (if bool_decide (slots <= 0) then None else Some slots))
  | TickBegin, Some _ => None
  | TickResume path, Some slots =>
      Some (mkSystem (snd (startFromBacklog slots path (service sys))) None)
  | TickResume _, None => None
  | Finish featureId, p =>
      Some (mkSystem (snd (unregister featureId (service sys))) p)
  | StoreWrite features, p =>
      Some (mkSystem (set_store features (service sys)) p)
  | ManualStart featureId path, p =>
      Some (mkSystem (snd (reserve featureId path (service sys))) p)
  | CommitStart featureId path, p =>
      Some (mkSystem (snd (register featureId path (service sys))) p)
  end.

Fixpoint run (steps : list Step) (sys : System) : option System :=
  match steps with
  | [] => Some sys
  | s :: rest =>
      match step s sys with
      | Some sys' => run rest sys'
      | None => None
      end
  end.

(** Steps of the periodic loop and of the work it started. *)
Definition loop_step (s : Step) : bool :=
  match s with
  | ManualStart _ _ | CommitStart _ _ => false
  | _ => true
  end.

(** [this.runningFeatures.size <= this.maxConcurrency] *)
Definition bounded (st : State) : Prop :=
  Z.of_nat (runningCount st) <= maxConcurrency st.

(** What the loop maintains between two stretches: the count is within
    [maxConcurrency] and, while a tick awaits the store, leaves room for
    the slots that tick computed. *)
Definition loop_invariant (sys : System) : Prop :=
  match pendingTick sys with
  | None => bounded (service sys)
  | Some slots =>
      0 < slots
      /\ Z.of_nat (runningCount (service sys)) + slots
         <= maxConcurrency (service sys)
  end.

(** [c] only appends to the trace, and what it appends holds at most [n]
    executor invocations. *)
Definition invokes_at_most {A} (n : nat) (c : M A) : Prop :=
  forall st, exists delta,
    trace (snd (c st)) = trace st ++ delta /\ (invocations delta <= n)%nat.

(** ** Sample boards and executors *)

Definition feature (i : string) (s : Status) (deps : list string) (skip : bool)
  : Feature.t :=
  Feature.mk i s deps skip.

Definition board (maxC : Z) (features : list Feature.t) : State :=
  mkState ∅ maxC features [].

(** An executor whose every invocation ends with the same result and
    leaves the store as it found it. *)
Definition always (r : Result RunResult) : Executor :=
  fun _ _ _ features => (r, features).

Definition passing : RunResult := mkRunResult true "done".
Definition failing : RunResult := mkRunResult false "ended early".

(** An executor that throws on the feature [i] and passes on the others. *)
Definition crashing_on (i : string) : Executor :=
  fun _ _ f features =>
    if bool_decide (Feature.id f = i)
    then (Throw (ExecutorFailure "crash"), features)
    else (Ok passing, features).

(** Y is in the backlog and X, also in the backlog, depends on it. *)
Definition board_XY : State :=
  board 3 [feature "Y" backlog [] false; feature "X" backlog ["Y"] false].

(** Two backlog features and room for a single run. *)
Definition board_ab : System :=
  mkSystem (board 1 [feature "a" backlog [] false;
                     feature "b" backlog [] false]) None.

(** A board with "f1" in a chosen status and "f2" in the backlog. *)
Definition board_f (s : Status) (skip : bool) : State :=
  board 3 [feature "f1" s [] skip; feature "f2" backlog [] false].

(** A board on which a run of "f1" is in flight. *)
Definition board_running : State :=
  set_running {[ "f1" := mkExecution "proj" ]} (board_f in_progress false).

(** ** Ids of a list of features *)

Definition ids (features : list Feature.t) : list string :=
  Feature.id <$> features.

(** ** What an operation may touch *)

(** The feature a renderer message is about. *)
Definition event_id (e : RendererEvent) : string :=
  match e with
  | auto_mode_feature_start i
  | auto_mode_phase i
  | auto_mode_progress i _
  | auto_mode_feature_complete i _ _
  | auto_mode_error i _ => i
  end.

(** The feature an effect is about. *)
Definition effect_id (e : Effect) : string :=
  match e with
  | SendToRenderer ev => event_id ev
  | UpdateFeatureStatus i _ => i
  | WriteToContextFile i _ => i
  | Invoke _ i => i
  end.

(** The status an effect writes, if it is a status write. *)
Definition written (e : Effect) : option Status :=
  match e with
  | UpdateFeatureStatus _ s => Some s
  | _ => None
  end.

(** An effect about [featureId] that writes, if anything, a status of
    [allowed]. *)
Definition within (featureId : string) (allowed : Status -> bool) (e : Effect)
  : Prop :=
  effect_id e = featureId
  /\ match written e with Some s => allowed s = true | None => True end.

(** [c] is confined to the feature [featureId]: it leaves the handles of
    the other features and [maxConcurrency] as they are, and only appends
    to the trace effects that are [within] the feature. *)
Definition confined {A} (featureId : string) (allowed : Status -> bool)
    (c : M A) : Prop :=
  forall st,
    (forall j, j <> featureId ->
       runningFeatures (snd (c st)) !! j = runningFeatures st !! j)
    /\ maxConcurrency (snd (c st)) = maxConcurrency st
    /\ exists delta,
         trace (snd (c st)) = trace st ++ delta
         /\ Forall (within featureId allowed) delta.

(** The statuses each kind of operation can write. *)
Definition fresh_statuses (s : Status) : bool :=
  match s with completed => false | _ => true end.

Definition resume_statuses (s : Status) : bool :=
  match s with in_progress | verified | waiting_approval => true | _ => false end.

Definition verify_statuses (s : Status) : bool :=
  match s with in_progress | verified => true | _ => false end.

Definition commit_statuses (s : Status) : bool :=
  match s with verified => true | _ => false end.

(** ** Retry markers *)

(** The number of the retry marker an effect appends to the context file;
    the instructions of a follow-up, numbered [0], are not a retry. *)
Definition marker (e : Effect) : option nat :=
  match e with
  | WriteToContextFile _ (S n) => Some (S n)
  | _ => None
  end.

(** The number of the retry a progress message announces. *)
Definition announced (e : Effect) : option nat :=
  match e with
  | SendToRenderer (auto_mode_progress _ n) => Some n
  | _ => None
  end.

(** Number of statuses a computation writes from a state, and whether it
    returns a value there. *)
Definition status_writes {A} (c : M A) (st : State) : nat :=
  length (omap written (effects_of c st)).

Definition returns {A} (c : M A) (st : State) : bool :=
  match fst (c st) with
  | Ok _ => true
  | Throw _ => false
  end.

(** ** The loop switch: [start], [stop], [getStatus], [stopFeature] *)

(** The service object in full: the part the operations work on, the flag
    and the timer of the periodic loop, the ticks of the loop that are
    waiting for the store (each with the [availableSlots] it computed and
    the project path its closure holds), and the features whose abort
    controller was signalled.  [autoLoopAbortController] is [null] from
    the constructor on and never assigned, so the branch of [stop] that
    aborts it is dead and the field is left out. *)
Record Service : Type := mkService {
  core : State;
  autoLoopRunning : bool;
  autoLoopInterval : option string;
  ticksInFlight : list (Z * string);
  abortSignals : gset string
}.

(** [new AutoModeService()] *)
Definition newService (features : list Feature.t) : Service :=
  mkService (mkState ∅ 3 features []) false None [] ∅.

Definition set_maxConcurrency (m : Z) (st : State) : State :=
  mkState (runningFeatures st) m (store st) (trace st).

Definition set_core (st : State) (svc : Service) : Service :=
  mkService st (autoLoopRunning svc) (autoLoopInterval svc)
    (ticksInFlight svc) (abortSignals svc).

(** [checkAndStartFeatures] up to [await featureLoader.loadFeatures]:
    with no slot available the tick returns, otherwise it waits for the
    store. *)
Definition beginTick (path : string) (svc : Service) : Service :=
  let slots := availableSlots (core svc) in
  if bool_decide (slots <= 0) then svc
  else mkService (core svc) (autoLoopRunning svc) (autoLoopInterval svc)
         (ticksInFlight svc ++ [(slots, path)]) (abortSignals svc).

(** The [n]-th waiting tick gets the store and goes on to its end. *)
Definition resumeTick (n : nat) (svc : Service) : Service :=
  match ticksInFlight svc !! n with
  | None => svc
  | Some (slots, path) =>
      mkService (snd (startFromBacklog slots path (core svc)))
        (autoLoopRunning svc) (autoLoopInterval svc)
        (delete n (ticksInFlight svc)) (abortSignals svc)
  end.

(** [maxConcurrency || 3], for an argument that is a number or absent. *)
Definition orDefault (maxC : option Z) : Z :=
  match maxC with
  | Some n => if bool_decide (n = 0) then 3 else n
  | None => 3
  end.

Inductive StartOutcome : Type :=
| loop_started
| loop_already_running.

(** [start({ projectPath, sendToRenderer, maxConcurrency })] with
    [runPeriodicLoop] inlined: the first check begins at once, then the
    timer is armed. *)
Definition start (path : string) (maxC : option Z) (svc : Service)
  : StartOutcome * Service :=
  if autoLoopRunning svc then (loop_already_running, svc) else
  let svc1 :=
    mkService (set_maxConcurrency (orDefault maxC) (core svc)) true
      (autoLoopInterval svc) (ticksInFlight svc) (abortSignals svc) in
  let svc2 := beginTick path svc1 in
  (loop_started,
   mkService (core svc2) (autoLoopRunning svc2) (Some path)
     (ticksInFlight svc2) (abortSignals svc2)).

(** The callback given to [setInterval], every [checkIntervalMs]. *)
Definition timerFires (svc : Service) : Service :=
  match autoLoopInterval svc with
  | Some path => if autoLoopRunning svc then beginTick path svc else svc
  | None => svc
  end.

(** [stop()].  Whether an execution carries an abort controller is up to
    the executor, which sets it: [controlled] tells it for each id. *)
Definition stop (controlled : string -> bool) (svc : Service) : Service :=
  mkService (set_running ∅ (core svc)) false None (ticksInFlight svc)
    (abortSignals svc
     ∪ filter (fun i => controlled i = true) (dom (runningFeatures (core svc)))).

(** The object [getStatus()] returns; the ids are given as a set, the
    order of the keys of the map not being modelled. *)
Record StatusReport : Type := mkStatusReport {
  reportLoopRunning : bool;
  reportFeatures : gset string;
  reportCount : nat
}.

Definition getStatus (svc : Service) : StatusReport :=
  mkStatusReport (autoLoopRunning svc) (dom (runningFeatures (core svc)))
    (size (runningFeatures (core svc))).

(** [stopFeature({ featureId })]; the value is the [success] field. *)
Definition stopFeature (controlled : string -> bool) (featureId : string)
    (svc : Service) : bool * Service :=
  if negb (bool_decide (is_Some (runningFeatures (core svc) !! featureId)))
  then (false, svc)
  else
    (true,
     mkService (snd (unregister featureId (core svc)))
       (autoLoopRunning svc) (autoLoopInterval svc) (ticksInFlight svc)
       (if controlled featureId
        then abortSignals svc ∪ {[ featureId ]}
        else abortSignals svc)).

(** What can happen to the service between two [await]s. *)
Inductive Call : Type :=
| CallStart (path : string) (maxC : option Z)
| CallStop (controlled : string -> bool)
| CallStopFeature (controlled : string -> bool) (featureId : string)
| TimerFires
| TickResumes (n : nat)
| RunBegins (featureId path : string)
| RunEnds (featureId : string).

Definition call (c : Call) (svc : Service) : Service :=
  match c with
  | CallStart path maxC => snd (start path maxC svc)
  | CallStop controlled => stop controlled svc
  | CallStopFeature controlled featureId =>
      snd (stopFeature controlled featureId svc)
  | TimerFires => timerFires svc
  | TickResumes n => resumeTick n svc
  | RunBegins featureId path =>
      set_core (snd (reserve featureId path (core svc))) svc
  | RunEnds featureId => set_core (snd (unregister featureId (core svc))) svc
  end.

Definition calls (cs : list Call) (svc : Service) : Service :=
  foldl (fun s c => call c s) svc cs.

(** What every sequence of calls keeps true of a service. *)
Definition service_invariant (svc : Service) : Prop :=
  (autoLoopRunning svc = true <-> is_Some (autoLoopInterval svc))
  /\ maxConcurrency (core svc) <> 0
  /\ Forall (fun t => 0 < fst t) (ticksInFlight svc).

(** ** Project analysis *)

(** [projectAnalyzer.runProjectAnalysis] is outside the service; it
    resolves to [{ success, message }], held here in a [RunResult] whose
    [passes] is [success], or throws, and may leave the store changed. *)
Definition Analyzer : Type :=
  list Feature.t -> Result RunResult * list Feature.t.

(** [await projectAnalyzer.runProjectAnalysis(...)] *)
Definition runProjectAnalysis (analyze : Analyzer) : M RunResult := fun st =>
  match analyze (store st) with
  | (r, l) => (r, set_store l st)
  end.

(** [analyzeProject({ projectPath, sendToRenderer })]; [analysisId] stands
    for [`project-analysis-${Date.now()}`], the value is the [message]
    field of the object returned.  The guard is the one of [reserve],
    with another message in its error. *)
Definition analyzeProject (analyze : Analyzer) (path analysisId : string)
  : M string :=
  reserve analysisId path ;;
  try_finally
    (try_catch
       (sendToRenderer (auto_mode_feature_start analysisId) ;;
        let* result := runProjectAnalysis analyze in
        sendToRenderer
          (auto_mode_feature_complete analysisId
             (passes result) (message result)) ;;
        ret (message result))
       (fun error =>
          sendToRenderer (auto_mode_error analysisId error) ;;
          throw error))
    (unregister analysisId).

(** ** The dependency graph of the board *)

(** The [data] of a node of the graph: the feature and what
    [useGraphNodes] adds to it. *)
Record TaskNode : Type := mkTaskNode {
  node_id : string;
  node_feature : Feature.t;
  isBlocked : bool;
  isRunning : bool;
  node_blocking : list string
}.

(** An edge of the graph with its [data]. *)
Record DependencyEdge : Type := mkDependencyEdge {
  edge_id : string;
  source : string;
  target : string;
  animated : bool;
  sourceStatus : Status;
  targetStatus : Status
}.

(** [features.forEach((f) => featureMap.set(f.id, f))]: of two features
    with one id the later one stays. *)
Definition featureMap (features : list Feature.t) : gmap string Feature.t :=
  foldl (fun m f => <[Feature.id f := f]> m) ∅ features.

(** [runningAutoTasks.includes(id)] *)
Definition includes (l : list string) (i : string) : bool :=
  bool_decide (i ∈ l).

(** The node [useGraphNodes] builds for a feature; the resolver
    [getBlockingDependencies] comes from a package whose body is not at
    hand and is a parameter. *)
Definition graphNode (resolve : Feature.t -> list Feature.t -> list string)
    (features : list Feature.t) (runningAutoTasks : list string)
    (f : Feature.t) : TaskNode :=
  let blockingDeps := resolve f features in
  mkTaskNode (Feature.id f) f
    (bool_decide (0 < length blockingDeps)%nat)
    (includes runningAutoTasks (Feature.id f))
    blockingDeps.

(** The edges [useGraphNodes] builds for a feature: one for each declared
    dependency that [featureMap] has. *)
Definition graphEdges (features : list Feature.t)
    (runningAutoTasks : list string) (f : Feature.t) : list DependencyEdge :=
  omap
    (fun depId =>
       match featureMap features !! depId with
       | Some sourceFeature =>
           Some (mkDependencyEdge
                   (depId +:+ "->" +:+ Feature.id f)
                   depId (Feature.id f)
                   (includes runningAutoTasks (Feature.id f)
                    || includes runningAutoTasks depId)
                   (Feature.status sourceFeature) (Feature.status f))
       | None => None
       end)
    (Feature.dependencies f).

(** [useGraphNodes({ features, runningAutoTasks })] *)
Definition useGraphNodes (resolve : Feature.t -> list Feature.t -> list string)
    (features : list Feature.t) (runningAutoTasks : list string)
  : list TaskNode * list DependencyEdge :=
  (graphNode resolve features runningAutoTasks <$> features,
   features ≫= graphEdges features runningAutoTasks).

(** [getEdgeColor(sourceStatus, targetStatus)] of the edge component. *)
Definition getEdgeColor (sourceStatus targetStatus : Status) : string :=
  if bool_decide (sourceStatus = completed)
     || bool_decide (sourceStatus = verified)
  then "var(--status-success)"
  else if bool_decide (targetStatus = in_progress)
  then "var(--status-in-progress)"
  else if bool_decide (targetStatus = backlog)
  then "var(--border)"
  else "var(--border)".

(** * Properties *)

(** ** The store *)

Lemma find_feature_id featureId l f :
  find_feature featureId l = Some f -> Feature.id f = featureId.
Proof.
  unfold find_feature. intros H. apply find_some in H as [_ H].
  by apply bool_decide_eq_true in H.
Qed.

Lemma setStatus_status_of featureId s l l' :
  setStatus featureId s l = Some l' -> status_of featureId l' = Some s.
Proof.
  revert l'. induction l as [|f l IH]; intros l' H; simpl in H; [done|].
  destruct (bool_decide (Feature.id f = featureId)) eqn:E.
  - inversion H; subst. unfold status_of, find_feature. simpl. by rewrite E.
  - destruct (setStatus featureId s l) as [l''|]; [|done].
    inversion H; subst. unfold status_of, find_feature in *. simpl.
    rewrite E. by apply IH.
Qed.

Lemma setStatus_found featureId s l f :
  find_feature featureId l = Some f -> is_Some (setStatus featureId s l).
Proof.
  unfold find_feature. induction l as [|g l IH]; simpl; [done|].
  destruct (bool_decide (Feature.id g = featureId)); [eauto|].
  intros H. destruct (IH H) as [l' ->]. eauto.
Qed.

(** ** The registry *)



Lemma reserve_running featureId path st :
  is_Some (runningFeatures st !! featureId) ->
  reserve featureId path st = (Throw (AlreadyRunning featureId), st).
Proof.
  intros H. unfold reserve, bind, has. by rewrite bool_decide_eq_true_2.
Qed.

Lemma reserve_free featureId path st :
  runningFeatures st !! featureId = None ->
  reserve featureId path st = register featureId path st.
Proof.
  intros H. unfold reserve, bind, has.
  rewrite bool_decide_eq_false_2; [done|]. rewrite H. by intros [? ?].
Qed.

(** ** Admission *)

Lemma backlogFeatures_spec f features :
  f ∈ backlogFeatures features <-> f ∈ features /\ Feature.status f = backlog.
Proof.
  unfold backlogFeatures. rewrite !list_elem_of_In, filter_In.
  by rewrite bool_decide_eq_true.
Qed.

Lemma startEach_spec features path st :
  exists started st',
    startEach features path st = (Ok started, st')
    /\ started `sublist_of` features
    /\ store st' = store st
    /\ maxConcurrency st' = maxConcurrency st
    /\ trace st' = trace st
    /\ (runningCount st' <= runningCount st + length features)%nat.
Proof.
  revert st. induction features as [|f features IH]; intros st.
  - exists [], st. simpl. unfold ret. repeat split; try done. lia.
  - simpl. unfold bind, startFeatureAsync_sync, bind, has, register, ret.
    destruct (bool_decide (is_Some (runningFeatures st !! Feature.id f))) eqn:E.
    + destruct (IH st) as (started & st' & -> & Hsub & Hs & Hm & Ht & Hc).
      exists started, st'. repeat split; try done.
      * by apply sublist_cons.
      * lia.
    + set (st1 := set_running _ st).
      destruct (IH st1) as (started & st' & -> & Hsub & Hs & Hm & Ht & Hc).
      exists (f :: started), st'. repeat split; try done.
      * by apply sublist_skip.
      * revert Hc. unfold runningCount, st1. simpl.
        pose proof (map_size_insert (Feature.id f)
                      (mkExecution path) (runningFeatures st)) as Hi.
        destruct (runningFeatures st !! Feature.id f); simpl in Hi; lia.
Qed.

Lemma startFromBacklog_spec slots path st :
  exists started st',
    startFromBacklog slots path st = (Ok started, st')
    /\ started `sublist_of` featuresToStart slots (store st)
    /\ store st' = store st
    /\ maxConcurrency st' = maxConcurrency st
    /\ trace st' = trace st
    /\ (runningCount st' <= runningCount st + Z.to_nat slots)%nat.
Proof.
  unfold startFromBacklog, bind, loadFeatures.
  destruct (bool_decide (length (backlogFeatures (store st)) = 0%nat)).
  - exists [], st. unfold ret. repeat split; try done.
    + apply sublist_nil_l.
    + lia.
  - destruct (startEach_spec (featuresToStart slots (store st)) path st)
      as (started & st' & H & Hsub & Hs & Hm & Ht & Hc).
    exists started, st'. repeat split; try done.
    unfold featuresToStart in Hc. rewrite length_take in Hc. lia.
Qed.

(** C1 (as amended): a tick of the admission loop always completes, and
    the features it starts are taken, in store order, among the first
    [availableSlots] features of the freshly loaded set whose status is
    [backlog]; each of them is in the store with status [backlog].
    Dependencies play no part in the selection. *)
Theorem admission_selects_backlog path st :
  exists started st',
    checkAndStartFeatures path st = (Ok started, st')
    /\ started `sublist_of`
         take (Z.to_nat (availableSlots st)) (backlogFeatures (store st))
    /\ Forall (fun f => f ∈ store st /\ Feature.status f = backlog) started.
Proof.
  unfold checkAndStartFeatures.
  destruct (bool_decide (availableSlots st <= 0)).
  - exists [], st. repeat split; [apply sublist_nil_l | constructor].
  - destruct (startFromBacklog_spec (availableSlots st) path st)
      as (started & st' & H & Hsub & _).
    exists started, st'. repeat split; try done.
    apply Forall_forall. intros f Hf.
    apply backlogFeatures_spec.
    apply (sublist_subseteq _ _ Hsub) in Hf. unfold featuresToStart in Hf.
    by apply (sublist_subseteq _ _ (sublist_take _ _)) in Hf.
Qed.

(** C1 (as stated) fails: on a board where X depends on Y and both are in
    the backlog, one tick starts X, which is not ready: Y, present with
    status [backlog], blocks it. *)
Lemma admission_ignores_dependencies :
  ~ (forall X,
       In X match fst (checkAndStartFeatures "proj" board_XY) with
            | Ok started => started
            | Throw _ => []
            end ->
       Feature.status X = backlog
       /\ blockingDependencies X (store board_XY) = [])
  /\ exists X Y,
       fst (checkAndStartFeatures "proj" board_XY) = Ok [Y; X]
       /\ In Y (store board_XY)
       /\ In (Feature.id Y) (Feature.dependencies X)
       /\ Feature.status Y = backlog
       /\ ready X (store board_XY) = false.
Proof.
  split.
  - intros H.
    destruct (H (feature "X" backlog ["Y"] false)) as [_ Hdeps].
    + vm_compute. auto.
    + vm_compute in Hdeps. discriminate Hdeps.
  - exists (feature "X" backlog ["Y"] false), (feature "Y" backlog [] false).
    repeat split; vm_compute; auto.
Qed.

(** ** Concurrency ceiling *)

Lemma loop_invariant_bounded sys : loop_invariant sys -> bounded (service sys).
Proof.
  unfold loop_invariant, bounded. destruct (pendingTick sys); [lia | done].
Qed.

Lemma step_loop_invariant s sys sys' :
  loop_step s = true ->
  loop_invariant sys ->
  step s sys = Some sys' ->
  loop_invariant sys'.
Proof.
  destruct sys as [st p]. unfold loop_invariant, step, bounded. simpl.
  intros Hs Hinv Hstep.
  destruct s; try discriminate; destruct p as [slots|]; simplify_eq/=.
  - case_bool_decide; simpl; [done|]. unfold availableSlots in *. lia.
  - destruct (startFromBacklog_spec slots path st) as (? & st' & -> & _ & _ & Hm & _ & Hc).
    simpl. rewrite Hm. lia.
  - pose proof (map_size_delete featureId (runningFeatures st)) as Hd.
    unfold runningCount in *. simpl.
    destruct (runningFeatures st !! featureId); simpl in Hd; lia.
  - pose proof (map_size_delete featureId (runningFeatures st)) as Hd.
    unfold runningCount in *. simpl.
    destruct (runningFeatures st !! featureId); simpl in Hd; lia.
  - done.
  - done.
Qed.

(** C2 (as amended): as long as only the periodic loop and the work it
    started are active (ticks, one at a time, the completion of started
    runs, and writes to the store), the registry count never exceeds
    [maxConcurrency]: the bound, once true with no tick in flight, holds
    after every schedule of such steps. *)
Theorem loop_respects_maxConcurrency steps sys sys' :
  forallb loop_step steps = true ->
  pendingTick sys = None ->
  bounded (service sys) ->
  run steps sys = Some sys' ->
  bounded (service sys').
Proof.
  intros Hsteps Hp Hb Hrun. apply loop_invariant_bounded.
  assert (loop_invariant sys) as Hinv.
  { unfold loop_invariant. by rewrite Hp. }
  clear Hp Hb. revert sys Hinv Hrun.
  induction steps as [|s steps IH]; intros sys Hinv Hrun; simpl in *.
  - by simplify_eq.
  - apply andb_prop in Hsteps as [Hs Hsteps].
    destruct (step s sys) as [sys1|] eqn:E; [|done].
    apply (IH Hsteps sys1); [|done]. by apply (step_loop_invariant s sys).
Qed.

(** Two ticks on a board with room for one run: the second tick starts
    "b" only because "a" finished in between. *)
Lemma loop_respects_maxConcurrency_witness :
  exists sys',
    run [TickBegin; TickResume "proj"; Finish "a"; TickBegin; TickResume "proj"]
      board_ab = Some sys'
    /\ bounded (service sys').
Proof.
  eexists. split; [vm_compute; reflexivity|].
  eapply (loop_respects_maxConcurrency
            [TickBegin; TickResume "proj"; Finish "a"; TickBegin;
             TickResume "proj"] board_ab).
  - reflexivity.
  - reflexivity.
  - unfold bounded. vm_compute. discriminate.
  - vm_compute. reflexivity.
Defined.

(** C2 (as stated) fails: with [maxConcurrency = 1], a tick starts "a" and
    a manual run of "b" is then registered all the same, leaving two live
    handles. *)
Lemma manual_run_exceeds_maxConcurrency :
  exists sys',
    run [TickBegin; TickResume "proj"; ManualStart "b" "proj"] board_ab
    = Some sys'
    /\ runningCount (service sys') = 2%nat
    /\ maxConcurrency (service sys') = 1
    /\ ~ bounded (service sys').
Proof.
  eexists. split; [vm_compute; reflexivity|].
  repeat split; try (vm_compute; reflexivity).
  unfold bounded. vm_compute. intros H. by apply H.
Qed.

(** ** Counting executor invocations *)

Section Invocations.
Context {A B : Type}.

Lemma invocations_app (l1 l2 : list Effect) :
  invocations (l1 ++ l2) = (invocations l1 + invocations l2)%nat.
Proof. unfold invocations. by rewrite List.filter_app, length_app. Qed.

Lemma quiet_invokes (c : M A) :
  (forall st, trace (snd (c st)) = trace st) -> invokes_at_most 0 c.
Proof.
  intros H st. exists []. rewrite H, app_nil_r. split; [done|]. unfold invocations. simpl. lia.
Qed.

Lemma single_effect_invokes (c : M A) (e : Effect) n :
  (forall st, trace (snd (c st)) = trace st ++ [e]) ->
  (invocations [e] <= n)%nat ->
  invokes_at_most n c.
Proof. intros H Hn st. exists [e]. by rewrite H. Qed.

Lemma invokes_mono (c : M A) n m :
  (n <= m)%nat -> invokes_at_most n c -> invokes_at_most m c.
Proof.
  intros Hnm H st. destruct (H st) as (delta & Ht & Hn).
  exists delta. split; [done | lia].
Qed.

Lemma bind_invokes (c : M A) (k : A -> M B) n m :
  invokes_at_most n c ->
  (forall a, invokes_at_most m (k a)) ->
  invokes_at_most (n + m) (bind c k).
Proof.
  intros Hc Hk st. unfold bind.
  destruct (Hc st) as (d1 & Ht1 & Hn1).
  destruct (c st) as [[a|e] st1]; simpl in *.
  - destruct (Hk a st1) as (d2 & Ht2 & Hn2).
    exists (d1 ++ d2). rewrite Ht2, Ht1, app_assoc, invocations_app.
    split; [done | lia].
  - exists d1. split; [done | lia].
Qed.

Lemma try_catch_invokes (c : M A) (h : Error -> M A) n m :
  invokes_at_most n c ->
  (forall e, invokes_at_most m (h e)) ->
  invokes_at_most (n + m) (try_catch c h).
Proof.
  intros Hc Hh st. unfold try_catch.
  destruct (Hc st) as (d1 & Ht1 & Hn1).
  destruct (c st) as [[a|e] st1]; simpl in *.
  - exists d1. split; [done | lia].
  - destruct (Hh e st1) as (d2 & Ht2 & Hn2).
    exists (d1 ++ d2). rewrite Ht2, Ht1, app_assoc, invocations_app.
    split; [done | lia].
Qed.

Lemma try_finally_invokes (c : M A) (f : M unit) n :
  invokes_at_most n c ->
  invokes_at_most 0 f ->
  invokes_at_most n (try_finally c f).
Proof.
  intros Hc Hf st. unfold try_finally.
  destruct (Hc st) as (d1 & Ht1 & Hn1).
  destruct (c st) as [r st1]; simpl in *.
  destruct (Hf st1) as (d2 & Ht2 & Hn2).
  exists (d1 ++ d2). rewrite invocations_app, app_assoc, <- Ht1, <- Ht2.
  split; [by destruct (f st1) as [[?|?] ?] | lia].
Qed.
End Invocations.

Lemma ret_invokes {A} (a : A) : invokes_at_most 0 (ret a).
Proof. by apply quiet_invokes. Qed.

Lemma throw_invokes {A} e : invokes_at_most 0 (@throw A e).
Proof. by apply quiet_invokes. Qed.

Lemma has_invokes featureId : invokes_at_most 0 (has featureId).
Proof. by apply quiet_invokes. Qed.

Lemma register_invokes featureId path :
  invokes_at_most 0 (register featureId path).
Proof. by apply quiet_invokes. Qed.

Lemma unregister_invokes featureId : invokes_at_most 0 (unregister featureId).
Proof. by apply quiet_invokes. Qed.

Lemma loadFeatures_invokes path : invokes_at_most 0 (loadFeatures path).
Proof. by apply quiet_invokes. Qed.

Lemma sendToRenderer_invokes e : invokes_at_most 0 (sendToRenderer e).
Proof. by apply (single_effect_invokes _ (SendToRenderer e)). Qed.

Lemma writeToContextFile_invokes featureId n :
  invokes_at_most 0 (writeToContextFile featureId n).
Proof. by apply (single_effect_invokes _ (WriteToContextFile featureId n)). Qed.

Lemma updateFeatureStatus_invokes featureId s path :
  invokes_at_most 0 (updateFeatureStatus featureId s path).
Proof.
  intros st. unfold updateFeatureStatus.
  destruct (setStatus featureId s (store st)); simpl.
  - by exists [UpdateFeatureStatus featureId s].
  - exists []. by rewrite app_nil_r.
Qed.

Lemma invoke_invokes exec k feature : invokes_at_most 1 (invoke exec k feature).
Proof.
  intros st. unfold invoke.
  destruct (exec _ k feature (store st)) as [r l]; simpl.
  by exists [Invoke k (Feature.id feature)].
Qed.

Lemma reserve_invokes featureId path : invokes_at_most 0 (reserve featureId path).
Proof.
  unfold reserve.
  apply (bind_invokes _ _ 0 0); [apply has_invokes|]. intros running.
  apply (bind_invokes _ _ 0 0); [|intros; apply register_invokes].
  destruct running; [apply throw_invokes | apply ret_invokes].
Qed.

Create HintDb invokes.
#[local] Hint Resolve ret_invokes throw_invokes has_invokes register_invokes
  unregister_invokes loadFeatures_invokes sendToRenderer_invokes
  writeToContextFile_invokes updateFeatureStatus_invokes invoke_invokes
  reserve_invokes : invokes.

(** ** The retry loop *)

Arguments retryLoop : simpl never.

Lemma retryLoop_S exec path featureId feature fuel attempts finalResult :
  retryLoop exec path featureId feature (S fuel) attempts finalResult
  = if negb (passes finalResult) && bool_decide (attempts < maxAttempts)%nat
    then
      let* updatedFeatures := loadFeatures path in
      match find_feature featureId updatedFeatures with
      | Some updatedFeature =>
          if bool_decide (Feature.status updatedFeature = in_progress)
          then
            writeToContextFile featureId (S attempts) ;;
            sendToRenderer (auto_mode_progress (Feature.id feature) (S attempts)) ;;
            let* result := invoke exec resumeFeatureWithContext feature in
            retryLoop exec path featureId feature fuel (S attempts) result
          else ret finalResult
      | None => ret finalResult
      end
    else ret finalResult.
Proof. reflexivity. Qed.

Lemma retryLoop_invokes exec path featureId feature fuel attempts r :
  invokes_at_most fuel (retryLoop exec path featureId feature fuel attempts r).
Proof.
  revert attempts r. induction fuel as [|fuel IH]; intros attempts r.
  - apply ret_invokes.
  - rewrite retryLoop_S. apply (invokes_mono _ (0 + S fuel)); [lia|].
    destruct (negb (passes r) && bool_decide (attempts < maxAttempts)%nat);
      [|apply (invokes_mono _ 0); [lia | apply ret_invokes]].
    apply bind_invokes; [auto with invokes|]. intros features.
    destruct (find_feature featureId features) as [updated|];
      [|apply (invokes_mono _ 0); [lia | apply ret_invokes]].
    destruct (bool_decide (Feature.status updated = in_progress));
      [|apply (invokes_mono _ 0); [lia | apply ret_invokes]].
    apply (bind_invokes _ _ 0 (S fuel)); [auto with invokes|]. intros _.
    apply (bind_invokes _ _ 0 (S fuel)); [auto with invokes|]. intros _.
    apply (bind_invokes _ _ 1 fuel); [auto with invokes|]. intros result.
    apply IH.
Qed.

(** The fuel the loop is entered with is never the reason it stops: more
    of it changes nothing. *)
Lemma retryLoop_fuel exec path featureId feature attempts r st extra :
  retryLoop exec path featureId feature
    (maxAttempts - attempts + extra) attempts r st
  = retryLoop exec path featureId feature (maxAttempts - attempts) attempts r st.
Proof.
  remember (maxAttempts - attempts)%nat as fuel eqn:Hfuel.
  revert attempts r st Hfuel.
  induction fuel as [|fuel IH]; intros attempts r st Hfuel.
  - destruct extra as [|extra]; [done|]. simpl. rewrite retryLoop_S.
    rewrite (bool_decide_eq_false_2 (attempts < maxAttempts)%nat) by lia.
    by rewrite andb_false_r.
  - simpl. rewrite !retryLoop_S.
    destruct (negb (passes r) && bool_decide (attempts < maxAttempts)%nat);
      [|done].
    unfold bind. destruct (loadFeatures path st) as [[features|e] st1]; [|done].
    destruct (find_feature featureId features) as [updated|]; [|done].
    destruct (bool_decide (Feature.status updated = in_progress)); [|done].
    destruct (writeToContextFile featureId (S attempts) st1)
      as [[?|?] st2]; [|done].
    destruct (sendToRenderer _ st2) as [[?|?] st3]; [|done].
    destruct (invoke exec resumeFeatureWithContext feature st3)
      as [[result|?] st4]; [|done].
    apply IH. lia.
Qed.

Lemma retryLoop_stops exec path featureId feature fuel attempts r st :
  negb (passes r) && bool_decide (attempts < 3)%nat
  && bool_decide (status_of featureId (store st) = Some in_progress) = false ->
  retryLoop exec path featureId feature fuel attempts r st = (Ok r, st).
Proof.
  intros H. destruct fuel as [|fuel]; [done|]. rewrite retryLoop_S.
  change maxAttempts with 3%nat.
  destruct (negb (passes r) && bool_decide (attempts < 3)%nat); [|done].
  simpl in H. apply bool_decide_eq_false in H.
  unfold bind, loadFeatures, status_of in *.
  destruct (find_feature featureId (store st)) as [updated|]; [|done].
  simpl in H. rewrite bool_decide_eq_false_2; [done|]. congruence.
Qed.

(** ** Running the operations *)

Lemma effects_of_invokes {A} (c : M A) n st :
  invokes_at_most n c -> (invocations (effects_of c st) <= n)%nat.
Proof.
  intros H. unfold effects_of. destruct (H st) as (delta & -> & Hn).
  by rewrite drop_app_length.
Qed.

(** Unfolds an operation down to the state it returns. *)
Ltac unfold_ops :=
  unfold runFeature, verifyFeature, resumeFeature, followUpFeature,
    runFollowUpWork, commitFeature, startFeatureAsync, startFeatureAsync_sync,
    startFeatureAsync_rest, reserve, bind, has, register, unregister,
    try_finally, try_catch, loadFeatures, throw, ret, updateFeatureStatus,
    sendToRenderer, invoke, writeToContextFile, effects_of in *.

(** Brings [effects_of] of an unfolded operation to a plain list. *)
Ltac trace_norm :=
  repeat rewrite <- app_assoc in *; simpl app in *;
  rewrite ?drop_app_length, ?drop_all in *.

(** Case analysis on every outcome met along an operation: the guard,
    the lookup, the writes to the store and the executor. *)
Ltac run_ops :=
  unfold_ops; simpl in *; repeat (case_match; simplify_eq/=); trace_norm.

(** Proves [In e [e1; ...; en]] for a closed list holding [e]. *)
Ltac pick_effect :=
  repeat ((left; reflexivity) || right).

(** Splits [In e [e1; ...; en]] into the cases [ei = e] that are not
    refuted by their constructors. *)
Ltac split_In H :=
  repeat (destruct H as [H|H]; [try discriminate H|]);
  try (exfalso; exact H).

(** ** Fresh runs *)



(** ** Resume and its retries *)

Lemma resumeFeature_invokes exec path featureId :
  invokes_at_most (1 + 3) (resumeFeature exec path featureId).
Proof.
  unfold resumeFeature.
  apply (bind_invokes _ _ 0 4); [auto with invokes|]. intros _.
  apply try_finally_invokes; [|auto with invokes].
  apply (try_catch_invokes _ _ 4 0).
  - apply (bind_invokes _ _ 0 4); [auto with invokes|]. intros features.
    destruct (find_feature featureId features) as [feature|];
      [|apply (invokes_mono _ 0); [lia | auto with invokes]].
    apply (bind_invokes _ _ 0 4); [auto with invokes|]. intros _.
    apply (bind_invokes _ _ 1 3); [auto with invokes|]. intros result.
    apply (bind_invokes _ _ 3 0); [apply retryLoop_invokes|]. intros final.
    apply (bind_invokes _ _ 0 0); [auto with invokes|]. intros _.
    apply (bind_invokes _ _ 0 0); auto with invokes.
  - intros e. apply (bind_invokes _ _ 0 0); auto with invokes.
Qed.

(** C3: in [resumeFeature], once the executor has been invoked, the retry
    loop returns at once, without a further invocation, unless the last
    result did not pass, fewer than 3 retries were made and the status
    re-read from the store is [in_progress]; a resume invokes the executor
    at most 1 + 3 times; and a resume that returns a result that does not
    pass leaves the status [in_progress] in the store. *)
Theorem resume_retries exec path featureId :
  (forall feature fuel attempts r st,
     negb (passes r) && bool_decide (attempts < 3)%nat
     && bool_decide (status_of featureId (store st) = Some in_progress) = false ->
     retryLoop exec path featureId feature fuel attempts r st = (Ok r, st))
  /\ (forall st,
        (invocations (effects_of (resumeFeature exec path featureId) st)
         <= 1 + 3)%nat)
  /\ (forall st st',
        resumeFeature exec path featureId st = (Ok false, st') ->
        status_of featureId (store st') = Some in_progress).
Proof.
  split; [|split].
  - intros. by apply retryLoop_stops.
  - intros st. apply effects_of_invokes, resumeFeature_invokes.
  - intros st st' H. run_ops.
    match goal with
    | Hp : passes ?r = false,
      Hs : setStatus _ (statusAfter _ _ ?r) _ = Some _ |- _ =>
        unfold statusAfter in Hs; rewrite Hp in Hs;
        by apply setStatus_status_of in Hs
    end.
Qed.

(** With an executor that never passes and a feature that stays
    [in_progress], a resume makes 4 invocations and leaves [in_progress];
    on a feature found in the backlog the loop stops at once. *)
Lemma resume_retries_witness :
  invocations
    (effects_of (resumeFeature (always (Ok failing)) "proj" "f1")
       (board_f in_progress false)) = 4%nat
  /\ status_of "f1"
       (store (snd (resumeFeature (always (Ok failing)) "proj" "f1"
                      (board_f in_progress false))))
     = Some in_progress
  /\ retryLoop (always (Ok failing)) "proj" "f1"
       (feature "f1" in_progress [] false) 3 0 failing
       (board_f backlog false)
     = (Ok failing, board_f backlog false).
Proof.
  pose proof (resume_retries (always (Ok failing)) "proj" "f1")
    as (Hstop & _ & Hfinal).
  split; [vm_compute; reflexivity|]. split.
  - apply (Hfinal (board_f in_progress false)). vm_compute. reflexivity.
  - apply Hstop. vm_compute. reflexivity.
Defined.

(** ** Marking [in_progress] before the executor runs *)

(** C5 (as amended): in a run started by the admission loop, by
    [runFeature] or by a follow-up, every invocation of the executor for
    the feature comes after the service wrote the status [in_progress] for
    it, with no other status written in between. *)
Theorem start_paths_mark_in_progress exec path feature st :
  invoked_in_progress (Feature.id feature) false
    (effects_of (startFeatureAsync exec feature path) st) = true
  /\ invoked_in_progress (Feature.id feature) false
       (effects_of (runFeature exec path (Feature.id feature)) st) = true
  /\ invoked_in_progress (Feature.id feature) false
       (effects_of (runFollowUpWork exec path (Feature.id feature)) st) = true.
Proof.
  repeat split; run_ops;
    repeat match goal with
           | H : find_feature _ _ = Some _ |- _ =>
               apply find_feature_id in H; try rewrite H in *
           end;
    rewrite ?bool_decide_eq_true_2 by done; simpl;
    rewrite ?bool_decide_eq_true_2 by done; simpl; try done.
Qed.

(** C5 (as stated) fails for the resume path: [resumeFeature] on a feature
    in the backlog invokes the executor without any status written
    before. *)
Lemma resume_invokes_unmarked :
  ~ (forall exec path featureId st,
       invoked_in_progress featureId false
         (effects_of (resumeFeature exec path featureId) st) = true).
Proof.
  intros H.
  specialize (H (always (Ok passing)) "proj" "f1" (board_f backlog false)).
  vm_compute in H. discriminate H.
Qed.

(** ** The guard against a second run *)

(** C6, evaluated where it fails: on a board where a run of "f1" is in
    flight, [runFeature], [resumeFeature] and [followUpFeature] throw
    [AlreadyRunning] and leave the handle alone, while [commitFeature]
    goes through, and its cleanup removes the handle of the run in
    flight. *)
Theorem commitFeature_ignores_live_handle :
  is_Some (runningFeatures board_running !! "f1")
  /\ runFeature (always (Ok passing)) "proj" "f1" board_running
     = (Throw (AlreadyRunning "f1"), board_running)
  /\ resumeFeature (always (Ok passing)) "proj" "f1" board_running
     = (Throw (AlreadyRunning "f1"), board_running)
  /\ followUpFeature "proj" "f1" board_running
     = (Throw (AlreadyRunning "f1"), board_running)
  /\ fst (commitFeature (always (Ok passing)) "proj" "f1" board_running)
     = Ok tt
  /\ runningFeatures
       (snd (commitFeature (always (Ok passing)) "proj" "f1" board_running))
     !! "f1" = None.
Proof.
  split; [by eexists|].
  repeat split; vm_compute; reflexivity.
Qed.

(** The guard of the four operations that have one. *)
Lemma guarded_operations_reject_running exec path featureId st :
  is_Some (runningFeatures st !! featureId) ->
  runFeature exec path featureId st = (Throw (AlreadyRunning featureId), st)
  /\ verifyFeature exec path featureId st = (Throw (AlreadyRunning featureId), st)
  /\ resumeFeature exec path featureId st = (Throw (AlreadyRunning featureId), st)
  /\ followUpFeature path featureId st = (Throw (AlreadyRunning featureId), st).
Proof.
  intros H. repeat split.
  - unfold runFeature, bind at 1. by rewrite reserve_running.
  - unfold verifyFeature, bind at 1. by rewrite reserve_running.
  - unfold resumeFeature, bind at 1. by rewrite reserve_running.
  - by apply reserve_running.
Qed.

(** ** Release of the handle *)



(** ** Executor failures in an admitted run *)

(** [startFeatureAsync] is its synchronous opening followed, when the
    feature was not running, by the rest. *)
Lemma startFeatureAsync_split exec feature path st :
  startFeatureAsync exec feature path st
  = (let* started := startFeatureAsync_sync feature path in
     if started then startFeatureAsync_rest exec feature path else ret tt) st.
Proof.
  unfold startFeatureAsync, startFeatureAsync_sync, startFeatureAsync_rest.
  unfold bind at 1 7 8, has.
  destruct (bool_decide (is_Some (runningFeatures st !! Feature.id feature)));
    [done|].
  unfold try_finally, try_catch, bind, register, ret. simpl. done.
Qed.

Lemma startFeatureAsync_never_throws exec feature path st :
  fst (startFeatureAsync exec feature path st) = Ok tt.
Proof. run_ops; done. Qed.

Lemma startFeatureAsync_rest_never_throws exec feature path st :
  fst (startFeatureAsync_rest exec feature path st) = Ok tt.
Proof. run_ops; done. Qed.

Lemma runEach_never_throws exec features path st :
  fst (runEach exec features path st) = Ok tt.
Proof.
  revert st. induction features as [|f features IH]; intros st; [done|].
  simpl. unfold bind.
  pose proof (startFeatureAsync_rest_never_throws exec f path st) as H.
  destruct (startFeatureAsync_rest exec f path st) as [[[]|e] st1];
    [apply IH | discriminate H].
Qed.

Lemma tickThenRuns_never_throws exec path st :
  fst (tickThenRuns exec path st) = Ok tt.
Proof.
  unfold tickThenRuns, bind, checkAndStartFeatures.
  destruct (bool_decide (availableSlots st <= 0)); [done|].
  destruct (startFromBacklog_spec (availableSlots st) path st)
    as (started & st' & -> & _).
  apply runEach_never_throws.
Qed.

(** C8: when the executor throws in a run started by the admission loop,
    [startFeatureAsync] still returns normally; it has published the error
    event for the feature; after the throw it wrote no status, so the
    store is as the executor left it (the feature had been marked
    [in_progress]); and the registry is back to what it was before the
    run, the handle released and every other handle in place.  A tick and
    the runs it started end normally whatever the executor does. *)
Theorem executor_failure_is_contained exec path feature st marked e left :
  runningFeatures st !! Feature.id feature = None ->
  setStatus (Feature.id feature) in_progress (store st) = Some marked ->
  exec (invocations (trace st)) implementFeature feature marked
  = (Throw e, left) ->
  startFeatureAsync exec feature path st
  = (Ok tt,
     mkState (runningFeatures st) (maxConcurrency st) left
       (trace st ++
        [UpdateFeatureStatus (Feature.id feature) in_progress;
         SendToRenderer (auto_mode_feature_start (Feature.id feature));
         Invoke implementFeature (Feature.id feature);
         SendToRenderer (auto_mode_error (Feature.id feature) e)]))
  /\ status_of (Feature.id feature) marked = Some in_progress
  /\ (forall board, fst (tickThenRuns exec path board) = Ok tt).
Proof.
  intros Hfree Hmark Hexec.
  split; [|split; [by eapply setStatus_status_of|]].
  - unfold startFeatureAsync, bind at 1, has.
    rewrite bool_decide_eq_false_2 by (rewrite Hfree; by intros [? ?]).
    unfold_ops. simpl. rewrite Hmark. simpl.
    rewrite !invocations_app, !Nat.add_0_r, Hexec. simpl.
    rewrite delete_insert_id by done.
    unfold set_running, set_store, log. simpl. by rewrite <- !app_assoc.
  - intros board. apply tickThenRuns_never_throws.
Qed.

(** The executor throws on "f1": its run ends with the error event and
    the status [in_progress], and the run of "f2", started by the same
    tick, still ends [verified]. *)
Lemma executor_failure_is_contained_witness :
  startFeatureAsync (crashing_on "f1")
    (feature "f1" backlog [] false) "proj" (board_f backlog false)
  = (Ok tt,
     mkState ∅ 3
       [feature "f1" in_progress [] false; feature "f2" backlog [] false]
       [UpdateFeatureStatus "f1" in_progress;
        SendToRenderer (auto_mode_feature_start "f1");
        Invoke implementFeature "f1";
        SendToRenderer (auto_mode_error "f1" (ExecutorFailure "crash"))])
  /\ fst (tickThenRuns (crashing_on "f1") "proj" (board_f backlog false))
     = Ok tt
  /\ store (snd (tickThenRuns (crashing_on "f1") "proj" (board_f backlog false)))
     = [feature "f1" in_progress [] false; feature "f2" verified [] false].
Proof.
  pose proof (executor_failure_is_contained (crashing_on "f1") "proj"
                (feature "f1" backlog [] false) (board_f backlog false)
                [feature "f1" in_progress [] false;
                 feature "f2" backlog [] false]
                (ExecutorFailure "crash")
                [feature "f1" in_progress [] false;
                 feature "f2" backlog [] false]) as H.
  destruct H as (Hrun & _ & Htick); [reflexivity | reflexivity | reflexivity |].
  split; [exact Hrun|]. split; [apply Htick|].
  vm_compute. reflexivity.
Defined.

(** ** Commit *)

(** C9 (as amended): a commit that completes has written the status
    [verified] after the commit action returned, and the store holds
    [verified] for the feature whatever its status was before. *)
Theorem commit_sets_verified exec path featureId st st' :
  commitFeature exec path featureId st = (Ok tt, st') ->
  status_of featureId (store st') = Some verified
  /\ effects_of (commitFeature exec path featureId) st
     = [SendToRenderer (auto_mode_feature_start featureId);
        SendToRenderer (auto_mode_phase featureId);
        Invoke commitChangesOnly featureId;
        UpdateFeatureStatus featureId verified;
        SendToRenderer
          (auto_mode_feature_complete featureId true
             "Changes committed successfully")].
Proof.
  intros H.
  assert (effects_of (commitFeature exec path featureId) st
          = drop (length (trace st)) (trace st')) as ->.
  { unfold effects_of. by rewrite H. }
  run_ops.
  match goal with
  | Hf : find_feature _ _ = Some _ |- _ =>
      apply find_feature_id in Hf; rewrite Hf
  end.
  split; [by eapply setStatus_status_of | done].
Qed.

(** A feature in [waiting_approval] is [verified] after its commit. *)
Lemma commit_sets_verified_witness :
  status_of "f1" (store (board_f waiting_approval true))
  = Some waiting_approval
  /\ status_of "f1"
       (store (snd (commitFeature (always (Ok passing)) "proj" "f1"
                      (board_f waiting_approval true))))
     = Some verified.
Proof.
  split; [reflexivity|].
  apply (commit_sets_verified (always (Ok passing)) "proj" "f1"
           (board_f waiting_approval true)).
  vm_compute. reflexivity.
Defined.

(** C9 (as stated) fails: committing a feature in [waiting_approval]
    changes its status, to [verified]. *)
Lemma commit_changes_status :
  ~ (forall exec path featureId st,
       status_of featureId
         (store (snd (commitFeature exec path featureId st)))
       = status_of featureId (store st)).
Proof.
  intros H.
  specialize (H (always (Ok passing)) "proj" "f1"
                (board_f waiting_approval true)).
  vm_compute in H. discriminate H.
Qed.

(** ** Verify *)

(** C10: a verification that returns the test result leaves the feature
    [verified] when the result passes and [in_progress] when it does not,
    whatever its status was before; that status is the only one the
    operation writes. *)
Theorem verify_sets_status exec path featureId st b st' :
  verifyFeature exec path featureId st = (Ok b, st') ->
  status_of featureId (store st') = Some (if b then verified else in_progress)
  /\ List.filter
       (fun e => match e with UpdateFeatureStatus _ _ => true | _ => false end)
       (effects_of (verifyFeature exec path featureId) st)
     = [UpdateFeatureStatus featureId (if b then verified else in_progress)].
Proof.
  intros H.
  assert (effects_of (verifyFeature exec path featureId) st
          = drop (length (trace st)) (trace st')) as ->.
  { unfold effects_of. by rewrite H. }
  run_ops; (split; [by eapply setStatus_status_of | done]).
Qed.

(** A failed verification of a feature in [waiting_approval] leaves it
    [in_progress]; a passed one of a backlog feature leaves it [verified]. *)
Lemma verify_sets_status_witness :
  status_of "f1"
    (store (snd (verifyFeature (always (Ok failing)) "proj" "f1"
                   (board_f waiting_approval false))))
  = Some in_progress
  /\ status_of "f1"
       (store (snd (verifyFeature (always (Ok passing)) "proj" "f1"
                      (board_f backlog false))))
     = Some verified.
Proof.
  split.
  - apply (verify_sets_status (always (Ok failing)) "proj" "f1"
             (board_f waiting_approval false) false).
    vm_compute. reflexivity.
  - apply (verify_sets_status (always (Ok passing)) "proj" "f1"
             (board_f backlog false) true).
    vm_compute. reflexivity.
Defined.

(** * Further properties *)

(** ** Dispatch by a tick *)

Lemma has_false featureId st :
  runningFeatures st !! featureId = None ->
  has featureId st = (Ok false, st).
Proof.
  intros H. unfold has. rewrite bool_decide_eq_false_2; [done|].
  rewrite H. by intros [? ?].
Qed.

Lemma has_true featureId st :
  is_Some (runningFeatures st !! featureId) ->
  has featureId st = (Ok true, st).
Proof. intros H. unfold has. by rewrite bool_decide_eq_true_2. Qed.

(** What the [for] loop of a tick does to the service: the features it
    starts had no handle and have distinct ids; afterwards every candidate
    has a handle; the handles that were there are kept; nothing else of
    the state moves. *)
Lemma startEach_registry features path st :
  exists started r',
    startEach features path st = (Ok started, set_running r' st)
    /\ started `sublist_of` features
    /\ NoDup (ids started)
    /\ (forall f, f ∈ started -> runningFeatures st !! Feature.id f = None)
    /\ (forall f, f ∈ features -> is_Some (r' !! Feature.id f))
    /\ (forall j, is_Some (runningFeatures st !! j) ->
                  r' !! j = runningFeatures st !! j)
    /\ (forall j, j ∉ ids started -> r' !! j = runningFeatures st !! j)
    /\ size r' = (size (runningFeatures st) + length started)%nat.
Proof.
  revert st. induction features as [|f features IH]; intros st.
  - exists [], (runningFeatures st). simpl. unfold ret.
    repeat split; try done; try (by destruct st); try constructor;
      try (intros f Hf; by apply elem_of_nil in Hf); lia.
  - simpl. unfold bind at 1. unfold startFeatureAsync_sync, bind at 1.
    destruct (runningFeatures st !! Feature.id f) as [x|] eqn:E.
    + rewrite has_true by (rewrite E; eauto). unfold ret at 1.
      destruct (IH st) as (started & r' & Hrun & Hsub & Hnd & Hfresh & Hall
                           & Hkeep & Hout & Hsize).
      unfold bind. rewrite Hrun. unfold ret.
      exists started, r'. repeat split; try done.
      * by apply sublist_cons.
      * intros g Hg. apply elem_of_cons in Hg as [->|Hg]; [|by apply Hall].
        rewrite Hkeep by (rewrite E; eauto). rewrite E. eauto.
    + rewrite has_false by done. unfold bind at 1, register, ret at 1.
      set (st1 := set_running _ st).
      destruct (IH st1) as (started & r' & Hrun & Hsub & Hnd & Hfresh & Hall
                            & Hkeep & Hout & Hsize).
      unfold bind. rewrite Hrun. unfold ret.
      assert (r' !! Feature.id f = Some (mkExecution path)) as Hf.
      { rewrite Hkeep; unfold st1; simpl; rewrite lookup_insert_eq; eauto. }
      assert (forall g, g ∈ started -> Feature.id g <> Feature.id f) as Hne.
      { intros g Hg Heq. specialize (Hfresh g Hg). unfold st1 in Hfresh.
        simpl in Hfresh. rewrite Heq, lookup_insert_eq in Hfresh. done. }
      exists (f :: started), r'. repeat split.
      * by apply sublist_skip.
      * unfold ids. simpl. constructor; [|done].
        intros Hin. apply list_elem_of_fmap in Hin as (g & Heq & Hg).
        by apply (Hne g Hg).
      * intros g Hg. apply elem_of_cons in Hg as [->|Hg]; [done|].
        specialize (Hfresh g Hg). unfold st1 in Hfresh. simpl in Hfresh.
        rewrite lookup_insert_ne in Hfresh; [done|].
        intros Heq. by apply (Hne g Hg).
      * intros g Hg. apply elem_of_cons in Hg as [->|Hg]; [eauto|].
        by apply Hall.
      * intros j Hj.
        assert (Feature.id f <> j) as Hfj
          by (intros <-; rewrite E in Hj; by destruct Hj).
        rewrite Hkeep; unfold st1; simpl; by rewrite lookup_insert_ne.
      * intros j Hj. unfold ids in Hj. simpl in Hj.
        apply not_elem_of_cons in Hj as [Hjf Hj].
        rewrite Hout by done. unfold st1. simpl.
        by apply lookup_insert_ne.
      * rewrite Hsize. unfold st1. simpl.
        rewrite map_size_insert_None by done. simpl. lia.
Qed.

Lemma startEach_all_running features path st :
  (forall f, f ∈ features -> is_Some (runningFeatures st !! Feature.id f)) ->
  startEach features path st = (Ok [], st).
Proof.
  induction features as [|f features IH]; intros Hall; [done|].
  simpl. unfold bind at 1. unfold startFeatureAsync_sync, bind at 1.
  rewrite has_true by (apply Hall; left). unfold ret at 1, bind.
  rewrite IH; [done|]. intros g Hg. apply Hall. by right.
Qed.

Lemma startEach_all_fresh features path st :
  (forall f, f ∈ features -> runningFeatures st !! Feature.id f = None) ->
  NoDup (ids features) ->
  fst (startEach features path st) = Ok features.
Proof.
  revert st. induction features as [|f features IH]; intros st Hfresh Hnd;
    [done|].
  simpl. unfold bind at 1. unfold startFeatureAsync_sync, bind at 1.
  rewrite has_false by (apply Hfresh; left).
  unfold bind at 1, register, ret at 1. unfold bind.
  unfold ids in Hnd. simpl in Hnd. apply NoDup_cons in Hnd as [Hf Hnd].
  set (st1 := set_running _ st).
  specialize (IH st1). destruct (startEach features path st1) as [[l|e] st2].
  - simpl in IH. unfold ret. simpl. f_equal. f_equal.
    assert (Ok l = Ok features) as Heq; [|by inversion Heq].
    apply IH; [|done]. intros g Hg. unfold st1. simpl.
    rewrite lookup_insert_ne.
    + apply Hfresh. by right.
    + intros Heq. apply Hf. rewrite Heq. apply list_elem_of_fmap. eauto.
  - simpl in IH. exfalso.
    assert (@Throw (list Feature.t) e = Ok features) as Heq; [|done].
    apply IH; [|done]. intros g Hg. unfold st1. simpl.
    rewrite lookup_insert_ne.
    + apply Hfresh. by right.
    + intros Heq. apply Hf. rewrite Heq. apply list_elem_of_fmap. eauto.
Qed.

(** The part of a tick that follows the read of the store. *)
Lemma startFromBacklog_registry slots path st :
  exists started r',
    startFromBacklog slots path st = (Ok started, set_running r' st)
    /\ NoDup (ids started)
    /\ (forall f, f ∈ started ->
          runningFeatures st !! Feature.id f = None
          /\ is_Some (r' !! Feature.id f))
    /\ (forall j, j ∉ ids started -> r' !! j = runningFeatures st !! j)
    /\ size r' = (runningCount st + length started)%nat.
Proof.
  unfold startFromBacklog, bind, loadFeatures.
  destruct (bool_decide (length (backlogFeatures (store st)) = 0%nat)).
  { exists [], (runningFeatures st). unfold ret.
    replace (set_running (runningFeatures st) st) with st by by destruct st.
    repeat split; try done; try constructor;
      try match goal with H : _ ∈ [] |- _ => by apply elem_of_nil in H end;
      try (unfold runningCount; simpl; lia). }
  destruct (startEach_registry (featuresToStart slots (store st)) path st)
    as (started & r' & Hrun & Hsub & Hnd & Hfresh & Hall & _ & Hout & Hsize).
  exists started, r'. repeat split; try done.
  - by apply Hfresh.
  - apply Hall. by apply (sublist_subseteq _ _ Hsub).
Qed.

Lemma checkAndStartFeatures_registry path st :
  exists started r',
    checkAndStartFeatures path st = (Ok started, set_running r' st)
    /\ (forall f, f ∈ started -> runningFeatures st !! Feature.id f = None)
    /\ (forall j, j ∉ ids started -> r' !! j = runningFeatures st !! j)
    /\ size r' = (runningCount st + length started)%nat.
Proof.
  unfold checkAndStartFeatures. cbv zeta.
  destruct (decide (availableSlots st <= 0)) as [Hfull|Hroom].
  - rewrite bool_decide_eq_true_2 by done.
    exists [], (runningFeatures st).
    replace (set_running (runningFeatures st) st) with st by by destruct st.
    split; [done|]. split.
    + intros f Hf. by apply elem_of_nil in Hf.
    + split; [done|]. unfold runningCount. simpl. lia.
  - rewrite bool_decide_eq_false_2 by done.
    destruct (startFromBacklog_registry (availableSlots st) path st)
      as (started & r' & Hrun & _ & Hfresh & Hout & Hsize).
    exists started, r'. split; [done|]. split; [|done].
    intros f Hf. by apply Hfresh.
Qed.

(** X1. What one tick does, for every state: it ends normally; the
    features it starts had no handle before, have pairwise distinct ids
    and all hold a handle afterwards; the handle of every other id is as
    it was; the count grows by exactly the number of features started;
    and the store, the trace and [maxConcurrency] are left alone. *)
Theorem tick_dispatch path st :
  exists started r',
    checkAndStartFeatures path st = (Ok started, set_running r' st)
    /\ NoDup (ids started)
    /\ (forall f, f ∈ started ->
          runningFeatures st !! Feature.id f = None
          /\ is_Some (r' !! Feature.id f))
    /\ (forall j, j ∉ ids started -> r' !! j = runningFeatures st !! j)
    /\ size r' = (runningCount st + length started)%nat.
Proof.
  unfold checkAndStartFeatures. cbv zeta.
  destruct (decide (availableSlots st <= 0)) as [Hfull|Hroom].
  - rewrite bool_decide_eq_true_2 by done.
    exists [], (runningFeatures st).
    replace (set_running (runningFeatures st) st) with st by by destruct st.
    split; [done|]. split; [constructor|]. split.
    + intros f Hf. by apply elem_of_nil in Hf.
    + split; [done|]. unfold runningCount. simpl. lia.
  - rewrite bool_decide_eq_false_2 by done.
    apply startFromBacklog_registry.
Qed.

(** While "f1" runs, a tick starts "f2" alone and leaves the handle of
    "f1" as it is. *)
Lemma tick_dispatch_witness :
  fst (checkAndStartFeatures "other" board_running)
  = Ok [feature "f2" backlog [] false]
  /\ runningFeatures (snd (checkAndStartFeatures "other" board_running))
     !! "f1" = Some (mkExecution "proj").
Proof.
  destruct (tick_dispatch "other" board_running)
    as (started & r' & Hrun & _ & _ & Hout & _).
  assert (started = [feature "f2" backlog [] false]) as ->.
  { assert (fst (checkAndStartFeatures "other" board_running)
            = Ok [feature "f2" backlog [] false]) as H by reflexivity.
    rewrite Hrun in H. by inversion H. }
  rewrite Hrun. simpl. split; [done|].
  rewrite Hout; [reflexivity|].
  apply (bool_decide_unpack _). vm_compute. exact I.
Defined.

(** X2. When none of the first [availableSlots] backlog features is
    running and their ids are distinct, a tick starts exactly those
    features, in store order, and the count grows by their number. *)
Theorem tick_starts_first_slots path st :
  (forall f, f ∈ featuresToStart (availableSlots st) (store st) ->
     runningFeatures st !! Feature.id f = None) ->
  NoDup (ids (featuresToStart (availableSlots st) (store st))) ->
  fst (checkAndStartFeatures path st)
  = Ok (take (Z.to_nat (availableSlots st)) (backlogFeatures (store st)))
  /\ runningCount (snd (checkAndStartFeatures path st))
     = (runningCount st
        + Nat.min (Z.to_nat (availableSlots st))
            (length (backlogFeatures (store st))))%nat.
Proof.
  intros Hfresh Hnd.
  destruct (checkAndStartFeatures_registry path st)
    as (started & r' & Hrun & _ & _ & Hsize).
  assert (fst (checkAndStartFeatures path st)
          = Ok (featuresToStart (availableSlots st) (store st))) as Hfst.
  { unfold checkAndStartFeatures. case_bool_decide as Hslots.
    - unfold featuresToStart. by replace (Z.to_nat (availableSlots st)) with 0%nat by lia.
    - unfold startFromBacklog, bind, loadFeatures. case_bool_decide as Hlen.
      + unfold featuresToStart. apply nil_length_inv in Hlen. by rewrite Hlen, take_nil.
      + by apply startEach_all_fresh. }
  split; [done|].
  rewrite Hrun in Hfst |- *. simpl in *. inversion Hfst; subst.
  unfold runningCount at 1. simpl. rewrite Hsize.
  unfold featuresToStart. by rewrite length_take.
Qed.

(** With room for two runs and backlog features A, B, C (P is in
    progress), a tick starts A and B. *)
Lemma tick_starts_first_slots_witness :
  fst (checkAndStartFeatures "proj"
         (board 2 [feature "A" backlog [] false; feature "P" in_progress [] false;
                   feature "B" backlog [] false; feature "C" backlog [] false]))
  = Ok [feature "A" backlog [] false; feature "B" backlog [] false].
Proof.
  refine (proj1 (tick_starts_first_slots "proj"
                   (board 2 [feature "A" backlog [] false;
                             feature "P" in_progress [] false;
                             feature "B" backlog [] false;
                             feature "C" backlog [] false]) _ _)).
  - intros f _. reflexivity.
  - apply (bool_decide_unpack _). vm_compute. exact I.
Defined.

(** X3. A tick that comes again before any status was written (same
    store, nothing released) starts nothing and leaves the service as it
    is: the features of the previous tick are skipped by their handles. *)
Theorem tick_again_starts_nothing path st :
  checkAndStartFeatures path (snd (checkAndStartFeatures path st))
  = (Ok [], snd (checkAndStartFeatures path st)).
Proof.
  destruct (checkAndStartFeatures path st) as [res st1] eqn:Hrun. simpl.
  unfold checkAndStartFeatures in Hrun. cbv zeta in Hrun.
  destruct (decide (availableSlots st <= 0)) as [Hslots|Hslots].
  { rewrite bool_decide_eq_true_2 in Hrun by done. inversion Hrun; subst.
    unfold checkAndStartFeatures. cbv zeta.
    by rewrite bool_decide_eq_true_2. }
  rewrite bool_decide_eq_false_2 in Hrun by done.
  unfold startFromBacklog, bind, loadFeatures in Hrun.
  destruct (decide (length (backlogFeatures (store st)) = 0%nat))
    as [Hlen|Hlen].
  { rewrite bool_decide_eq_true_2 in Hrun by done. inversion Hrun; subst.
    unfold checkAndStartFeatures. cbv zeta.
    rewrite bool_decide_eq_false_2 by done.
    unfold startFromBacklog, bind, loadFeatures.
    by rewrite bool_decide_eq_true_2. }
  rewrite bool_decide_eq_false_2 in Hrun by done.
  destruct (startEach_registry
              (featuresToStart (availableSlots st) (store st)) path st)
    as (started & r' & Hrun' & _ & _ & _ & Hall & _ & _ & Hsize).
  rewrite Hrun' in Hrun. inversion Hrun; subst res st1; clear Hrun.
  unfold checkAndStartFeatures. cbv zeta.
  destruct (decide (availableSlots (set_running r' st) <= 0)) as [Hs2|Hs2];
    [by rewrite bool_decide_eq_true_2|].
  rewrite bool_decide_eq_false_2 by done.
  unfold startFromBacklog, bind, loadFeatures.
  change (store (set_running r' st)) with (store st).
  rewrite bool_decide_eq_false_2 by done.
  apply startEach_all_running. intros f Hf. simpl. apply Hall.
  unfold featuresToStart in *.
  assert (Z.to_nat (availableSlots (set_running r' st))
          <= Z.to_nat (availableSlots st))%nat as Hle.
  { unfold availableSlots, runningCount. simpl. rewrite Hsize. lia. }
  apply (sublist_subseteq _ _
           (sublist_take _ (Z.to_nat (availableSlots (set_running r' st))))).
  by rewrite take_take, Nat.min_l.
Qed.

(** ** Handles of the runs a tick started *)

Lemma startFeatureAsync_rest_registry exec feature path st :
  runningFeatures (snd (startFeatureAsync_rest exec feature path st))
  = delete (Feature.id feature) (runningFeatures st).
Proof. run_ops; done. Qed.

Lemma runEach_lookup exec features path st j :
  runningFeatures (snd (runEach exec features path st)) !! j
  = if bool_decide (j ∈ ids features) then None else runningFeatures st !! j.
Proof.
  revert st. induction features as [|f features IH]; intros st; [done|].
  simpl. unfold bind.
  pose proof (startFeatureAsync_rest_never_throws exec f path st) as Hok.
  pose proof (startFeatureAsync_rest_registry exec f path st) as Hreg.
  destruct (startFeatureAsync_rest exec f path st) as [[[]|e] st1];
    [|discriminate Hok].
  simpl in Hreg. rewrite IH, Hreg.
  change (ids (f :: features)) with (Feature.id f :: ids features).
  destruct (decide (j = Feature.id f)) as [->|Hne].
  - rewrite lookup_delete_eq.
    rewrite (bool_decide_eq_true_2 (_ ∈ _ :: _)) by constructor.
    by case_bool_decide.
  - rewrite lookup_delete_ne by done.
    case_bool_decide as H1; case_bool_decide as H2; try done.
    + exfalso. apply H2. by constructor.
    + by apply elem_of_cons in H2 as [?|?].
Qed.

(** X4. Handles do not leak: once a tick and all the runs it started have
    ended, whatever the executor did in each of them, the registry is
    exactly what it was before the tick. *)
Theorem tick_runs_release_all exec path st :
  runningFeatures (snd (tickThenRuns exec path st)) = runningFeatures st.
Proof.
  unfold tickThenRuns, bind.
  destruct (checkAndStartFeatures_registry path st)
    as (started & r' & -> & Hfresh & Hout & _).
  apply map_eq. intros j. rewrite runEach_lookup. simpl.
  case_bool_decide as Hj.
  - apply list_elem_of_fmap in Hj as (f & -> & Hf).
    symmetry. by apply Hfresh.
  - by apply Hout.
Qed.

(** ** Confinement of the operations *)

Section Confined.
Context {A B : Type} (featureId : string) (allowed : Status -> bool).

Lemma confined_silent (c : M A) :
  (forall st, runningFeatures (snd (c st)) = runningFeatures st
              /\ maxConcurrency (snd (c st)) = maxConcurrency st
              /\ trace (snd (c st)) = trace st) ->
  confined featureId allowed c.
Proof.
  intros H st. destruct (H st) as (Hr & Hm & Ht).
  rewrite Hr, Hm, Ht. repeat split; try done.
  exists []. by rewrite app_nil_r.
Qed.

Lemma confined_effect (c : M A) (e : Effect) :
  within featureId allowed e ->
  (forall st, runningFeatures (snd (c st)) = runningFeatures st
              /\ maxConcurrency (snd (c st)) = maxConcurrency st
              /\ trace (snd (c st)) = trace st ++ [e]) ->
  confined featureId allowed c.
Proof.
  intros He H st. destruct (H st) as (Hr & Hm & Ht).
  rewrite Hr, Hm, Ht. repeat split; try done.
  exists [e]. split; [done|]. by constructor.
Qed.

Lemma confined_bind (c : M A) (k : A -> M B) :
  confined featureId allowed c ->
  (forall a, confined featureId allowed (k a)) ->
  confined featureId allowed (bind c k).
Proof.
  intros Hc Hk st. unfold bind.
  destruct (Hc st) as (Hr1 & Hm1 & d1 & Ht1 & Hd1).
  destruct (c st) as [[a|e] st1]; simpl in *.
  - destruct (Hk a st1) as (Hr2 & Hm2 & d2 & Ht2 & Hd2).
    repeat split.
    + intros j Hj. by rewrite Hr2, Hr1.
    + by rewrite Hm2.
    + exists (d1 ++ d2). rewrite Ht2, Ht1, app_assoc.
      split; [done | by apply Forall_app].
  - repeat split; try done. by exists d1.
Qed.

Lemma confined_try_catch (c : M A) (h : Error -> M A) :
  confined featureId allowed c ->
  (forall e, confined featureId allowed (h e)) ->
  confined featureId allowed (try_catch c h).
Proof.
  intros Hc Hh st. unfold try_catch.
  destruct (Hc st) as (Hr1 & Hm1 & d1 & Ht1 & Hd1).
  destruct (c st) as [[a|e] st1]; simpl in *.
  - repeat split; try done. by exists d1.
  - destruct (Hh e st1) as (Hr2 & Hm2 & d2 & Ht2 & Hd2).
    repeat split.
    + intros j Hj. by rewrite Hr2, Hr1.
    + by rewrite Hm2.
    + exists (d1 ++ d2). rewrite Ht2, Ht1, app_assoc.
      split; [done | by apply Forall_app].
Qed.

Lemma confined_try_finally (c : M A) (f : M unit) :
  confined featureId allowed c ->
  confined featureId allowed f ->
  confined featureId allowed (try_finally c f).
Proof.
  intros Hc Hf st. unfold try_finally.
  destruct (Hc st) as (Hr1 & Hm1 & d1 & Ht1 & Hd1).
  destruct (c st) as [r st1]; simpl in *.
  destruct (Hf st1) as (Hr2 & Hm2 & d2 & Ht2 & Hd2).
  destruct (f st1) as [[[]|e] st2]; simpl in *.
  all: repeat split;
    [ intros j Hj; by rewrite Hr2, Hr1
    | by rewrite Hm2
    | exists (d1 ++ d2); rewrite Ht2, Ht1, app_assoc;
      split; [done | by apply Forall_app] ].
Qed.
End Confined.

Lemma confined_weaken {A} featureId (allowed allowed' : Status -> bool)
    (c : M A) :
  (forall s, allowed s = true -> allowed' s = true) ->
  confined featureId allowed c -> confined featureId allowed' c.
Proof.
  intros Hw Hc st. destruct (Hc st) as (Hr & Hm & d & Ht & Hd).
  repeat split; try done. exists d. split; [done|].
  eapply Forall_impl; [exact Hd|]. intros e [Hid Hs]. split; [done|].
  destruct (written e); [by apply Hw | done].
Qed.

Lemma confined_ret {A} featureId allowed (a : A) :
  confined featureId allowed (ret a).
Proof. by apply confined_silent. Qed.

Lemma confined_throw {A} featureId allowed e :
  confined featureId allowed (@throw A e).
Proof. by apply confined_silent. Qed.

Lemma confined_has featureId allowed i : confined featureId allowed (has i).
Proof. by apply confined_silent. Qed.

Lemma confined_loadFeatures featureId allowed path :
  confined featureId allowed (loadFeatures path).
Proof. by apply confined_silent. Qed.

Lemma confined_register featureId allowed path :
  confined featureId allowed (register featureId path).
Proof.
  intros st. unfold register. simpl. repeat split.
  - intros j Hj. by apply lookup_insert_ne.
  - exists []. by rewrite app_nil_r.
Qed.

Lemma confined_unregister featureId allowed :
  confined featureId allowed (unregister featureId).
Proof.
  intros st. unfold unregister. simpl. repeat split.
  - intros j Hj. by apply lookup_delete_ne.
  - exists []. by rewrite app_nil_r.
Qed.

Lemma confined_sendToRenderer featureId allowed ev :
  event_id ev = featureId ->
  confined featureId allowed (sendToRenderer ev).
Proof.
  intros H. by apply (confined_effect _ _ _ (SendToRenderer ev)).
Qed.

Lemma confined_writeToContextFile featureId allowed n :
  confined featureId allowed (writeToContextFile featureId n).
Proof. by apply (confined_effect _ _ _ (WriteToContextFile featureId n)). Qed.

Lemma confined_updateFeatureStatus featureId allowed s path :
  allowed s = true ->
  confined featureId allowed (updateFeatureStatus featureId s path).
Proof.
  intros Hs st. unfold updateFeatureStatus.
  destruct (setStatus featureId s (store st)); simpl.
  - repeat split; try done.
    exists [UpdateFeatureStatus featureId s]. split; [done|]. by repeat constructor.
  - repeat split; try done. exists []. by rewrite app_nil_r.
Qed.

Lemma confined_invoke featureId allowed exec k feature :
  Feature.id feature = featureId ->
  confined featureId allowed (invoke exec k feature).
Proof.
  intros Hid st. unfold invoke.
  destruct (exec _ k feature (store st)) as [r l]; simpl.
  repeat split; try done.
  exists [Invoke k (Feature.id feature)]. split; [done|]. by repeat constructor.
Qed.

Lemma confined_reserve featureId allowed path :
  confined featureId allowed (reserve featureId path).
Proof.
  unfold reserve. apply confined_bind; [apply confined_has|]. intros running.
  apply confined_bind; [|intros; apply confined_register].
  destruct running; [apply confined_throw | apply confined_ret].
Qed.

Lemma confined_retryLoop featureId allowed exec path feature fuel attempts r :
  Feature.id feature = featureId ->
  confined featureId allowed
    (retryLoop exec path featureId feature fuel attempts r).
Proof.
  intros Hid. revert attempts r.
  induction fuel as [|fuel IH]; intros attempts r; [apply confined_ret|].
  rewrite retryLoop_S.
  destruct (negb (passes r) && bool_decide (attempts < maxAttempts)%nat);
    [|apply confined_ret].
  apply confined_bind; [apply confined_loadFeatures|]. intros features.
  destruct (find_feature featureId features) as [updated|];
    [|apply confined_ret].
  destruct (bool_decide (Feature.status updated = in_progress));
    [|apply confined_ret].
  apply confined_bind; [apply confined_writeToContextFile|]. intros _.
  apply confined_bind; [by apply confined_sendToRenderer|]. intros _.
  apply confined_bind; [by apply confined_invoke|]. intros result.
  apply IH.
Qed.

Lemma statusAfter_fresh feature result :
  fresh_statuses (statusAfter backlog feature result) = true.
Proof. unfold statusAfter. by repeat case_match. Qed.

Lemma statusAfter_resume feature result :
  resume_statuses (statusAfter in_progress feature result) = true.
Proof. unfold statusAfter. by repeat case_match. Qed.

(** Steps through an operation built from the combinators. *)
Ltac confine :=
  repeat first
    [ apply confined_ret | apply confined_throw | apply confined_has
    | apply confined_loadFeatures | apply confined_register
    | apply confined_unregister | apply confined_reserve
    | apply confined_writeToContextFile
    | apply confined_sendToRenderer; simpl; congruence
    | apply confined_invoke; congruence
    | apply confined_retryLoop; congruence
    | apply confined_updateFeatureStatus;
      first [ reflexivity | apply statusAfter_fresh
            | apply statusAfter_resume | by case_match ]
    | apply confined_try_finally
    | apply confined_try_catch; [|intros ?]
    | apply confined_bind; [|intros ?]
    | match goal with
      | |- confined ?i _ (match find_feature ?i ?l with _ => _ end) =>
          let E := fresh "E" in
          destruct (find_feature i l) eqn:E;
          [apply find_feature_id in E; subst i|]
      end ].

Lemma runFeature_confined exec path featureId :
  confined featureId fresh_statuses (runFeature exec path featureId).
Proof. unfold runFeature. confine. Qed.

Lemma startFeatureAsync_confined exec feature path :
  confined (Feature.id feature) fresh_statuses
    (startFeatureAsync exec feature path).
Proof.
  unfold startFeatureAsync. cbv zeta.
  apply confined_bind; [apply confined_has|]. intros running.
  destruct running; confine.
Qed.

Lemma verifyFeature_confined exec path featureId :
  confined featureId verify_statuses (verifyFeature exec path featureId).
Proof. unfold verifyFeature. confine. Qed.

Lemma resumeFeature_confined exec path featureId :
  confined featureId resume_statuses (resumeFeature exec path featureId).
Proof. unfold resumeFeature. confine. Qed.

Lemma runFollowUpWork_confined exec path featureId :
  confined featureId resume_statuses (runFollowUpWork exec path featureId).
Proof. unfold runFollowUpWork. confine. Qed.

Lemma commitFeature_confined exec path featureId :
  confined featureId commit_statuses (commitFeature exec path featureId).
Proof. unfold commitFeature. confine. Qed.

Lemma confined_effects {A} featureId allowed (c : M A) st e :
  confined featureId allowed c ->
  In e (effects_of c st) -> within featureId allowed e.
Proof.
  intros Hc He. destruct (Hc st) as (_ & _ & delta & Ht & Hd).
  unfold effects_of in He. rewrite Ht, drop_app_length in He.
  rewrite Forall_forall in Hd. apply Hd. by apply list_elem_of_In.
Qed.

(** X5. An operation on one feature never disturbs the rest of the
    service: whatever the executor does, the handle of every other
    feature and [maxConcurrency] are after the operation what they were
    before it. *)
Theorem operations_keep_other_handles exec path feature st j :
  j <> Feature.id feature ->
  let featureId := Feature.id feature in
  Forall
    (fun st' =>
       runningFeatures st' !! j = runningFeatures st !! j
       /\ maxConcurrency st' = maxConcurrency st)
    [snd (startFeatureAsync exec feature path st);
     snd (runFeature exec path featureId st);
     snd (verifyFeature exec path featureId st);
     snd (resumeFeature exec path featureId st);
     snd (followUpFeature path featureId st);
     snd (runFollowUpWork exec path featureId st);
     snd (commitFeature exec path featureId st)].
Proof.
  intros Hj featureId.
  assert (forall {A} (c : M A) allowed,
             confined featureId allowed c ->
             runningFeatures (snd (c st)) !! j = runningFeatures st !! j
             /\ maxConcurrency (snd (c st)) = maxConcurrency st) as Huse.
  { intros A c allowed Hc. destruct (Hc st) as (Hr & Hm & _).
    split; [by apply Hr | done]. }
  repeat apply Forall_cons_2; try apply Forall_nil_2.
  - apply (Huse _ _ _ (startFeatureAsync_confined exec feature path)).
  - apply (Huse _ _ _ (runFeature_confined exec path featureId)).
  - apply (Huse _ _ _ (verifyFeature_confined exec path featureId)).
  - apply (Huse _ _ _ (resumeFeature_confined exec path featureId)).
  - apply (Huse _ _ _ (confined_reserve featureId fresh_statuses path)).
  - apply (Huse _ _ _ (runFollowUpWork_confined exec path featureId)).
  - apply (Huse _ _ _ (commitFeature_confined exec path featureId)).
Qed.

(** While "f1" runs, a failing resume of "f2" leaves the handle of "f1"
    in place. *)
Lemma operations_keep_other_handles_witness :
  runningFeatures
    (snd (resumeFeature (always (Ok failing)) "proj" "f2" board_running))
    !! "f1" = Some (mkExecution "proj").
Proof.
  pose proof (operations_keep_other_handles (always (Ok failing)) "proj"
                (feature "f2" backlog [] false) board_running "f1") as H.
  simpl in H. specialize (H ltac:(discriminate)).
  rewrite !Forall_cons in H.
  destruct H as (_ & _ & _ & [H _] & _). rewrite H. reflexivity.
Defined.

(** X6. Everything an operation on a feature does outside the service is
    about that feature: every renderer message it sends, every status it
    writes, every context marker and every executor invocation carries
    the id of the feature. *)
Theorem operations_concern_their_feature exec path feature st e :
  let featureId := Feature.id feature in
  In e (effects_of (startFeatureAsync exec feature path) st
        ++ effects_of (runFeature exec path featureId) st
        ++ effects_of (verifyFeature exec path featureId) st
        ++ effects_of (resumeFeature exec path featureId) st
        ++ effects_of (runFollowUpWork exec path featureId) st
        ++ effects_of (commitFeature exec path featureId) st) ->
  effect_id e = featureId.
Proof.
  intros featureId He.
  repeat (apply in_app_or in He as [He|He]).
  - by apply (confined_effects _ _ _ _ _
                (startFeatureAsync_confined exec feature path)) in He as [? _].
  - by apply (confined_effects _ _ _ _ _
                (runFeature_confined exec path featureId)) in He as [? _].
  - by apply (confined_effects _ _ _ _ _
                (verifyFeature_confined exec path featureId)) in He as [? _].
  - by apply (confined_effects _ _ _ _ _
                (resumeFeature_confined exec path featureId)) in He as [? _].
  - by apply (confined_effects _ _ _ _ _
                (runFollowUpWork_confined exec path featureId)) in He as [? _].
  - by apply (confined_effects _ _ _ _ _
                (commitFeature_confined exec path featureId)) in He as [? _].
Qed.

(** The third retry marker of a failing resume of "f1" is about "f1". *)
Lemma operations_concern_their_feature_witness :
  In (WriteToContextFile "f1" 3)
     (effects_of (resumeFeature (always (Ok failing)) "proj" "f1")
        (board_f in_progress false))
  /\ effect_id (WriteToContextFile "f1" 3) = "f1".
Proof.
  split; [vm_compute; pick_effect|].
  apply (operations_concern_their_feature (always (Ok failing)) "proj"
           (feature "f1" in_progress [] false) (board_f in_progress false)).
  vm_compute. pick_effect.
Defined.

(** X7. The statuses an operation can write, whatever the executor
    returns: a resume and a follow-up write only [in_progress],
    [verified] or [waiting_approval], so they never send a feature back
    to the backlog; a verification writes only [verified] or
    [in_progress]; a commit writes only [verified]; and no operation,
    fresh runs included, ever writes [completed]. *)
Theorem statuses_an_operation_writes exec path feature st i s :
  let featureId := Feature.id feature in
  (In (UpdateFeatureStatus i s)
      (effects_of (resumeFeature exec path featureId) st
       ++ effects_of (runFollowUpWork exec path featureId) st) ->
   s = in_progress \/ s = verified \/ s = waiting_approval)
  /\ (In (UpdateFeatureStatus i s)
         (effects_of (verifyFeature exec path featureId) st) ->
      s = in_progress \/ s = verified)
  /\ (In (UpdateFeatureStatus i s)
         (effects_of (commitFeature exec path featureId) st) ->
      s = verified)
  /\ (In (UpdateFeatureStatus i s)
         (effects_of (startFeatureAsync exec feature path) st
          ++ effects_of (runFeature exec path featureId) st) ->
      s <> completed).
Proof.
  intros featureId. repeat split.
  - intros He. apply in_app_or in He as [He|He].
    + apply (confined_effects _ _ _ _ _
               (resumeFeature_confined exec path featureId)) in He as [_ He].
      simpl in He. destruct s; auto; discriminate.
    + apply (confined_effects _ _ _ _ _
               (runFollowUpWork_confined exec path featureId)) in He as [_ He].
      simpl in He. destruct s; auto; discriminate.
  - intros He.
    apply (confined_effects _ _ _ _ _
             (verifyFeature_confined exec path featureId)) in He as [_ He].
    simpl in He. destruct s; auto; discriminate.
  - intros He.
    apply (confined_effects _ _ _ _ _
             (commitFeature_confined exec path featureId)) in He as [_ He].
    simpl in He. destruct s; auto; discriminate.
  - intros He ->. apply in_app_or in He as [He|He].
    + by apply (confined_effects _ _ _ _ _
                  (startFeatureAsync_confined exec feature path)) in He as [_ He].
    + by apply (confined_effects _ _ _ _ _
                  (runFeature_confined exec path featureId)) in He as [_ He].
Qed.

(** The status a failing resume of "f1" writes is one of the three. *)
Lemma statuses_an_operation_writes_witness :
  In (UpdateFeatureStatus "f1" in_progress)
     (effects_of (resumeFeature (always (Ok failing)) "proj" "f1")
        (board_f in_progress false))
  /\ (in_progress = in_progress \/ in_progress = verified
      \/ in_progress = waiting_approval).
Proof.
  split; [vm_compute; pick_effect|].
  apply (proj1 (statuses_an_operation_writes (always (Ok failing)) "proj"
                  (feature "f1" in_progress [] false)
                  (board_f in_progress false) "f1" in_progress)).
  vm_compute. pick_effect.
Defined.

(** ** Operations on a feature that is not in the store *)

Lemma register_unregister featureId path st :
  runningFeatures st !! featureId = None ->
  set_running
    (delete featureId (<[featureId := mkExecution path]> (runningFeatures st)))
    st = st.
Proof. intros H. rewrite delete_insert_id by done. by destruct st. Qed.

(** X8. An operation asked for an id that no feature of the store carries
    ends with [NotFound]: it publishes the error event for that id and
    nothing else, never reaches the executor, writes no status, and
    leaves the registry as it found it.  [runFeature], [verifyFeature],
    [resumeFeature] and [commitFeature] throw the error to their caller;
    [runFollowUpWork] swallows it. *)
Theorem operation_on_missing_feature exec path featureId st :
  runningFeatures st !! featureId = None ->
  find_feature featureId (store st) = None ->
  let reported :=
    log (SendToRenderer (auto_mode_error featureId (NotFound featureId))) st in
  runFeature exec path featureId st = (Throw (NotFound featureId), reported)
  /\ verifyFeature exec path featureId st
     = (Throw (NotFound featureId), reported)
  /\ resumeFeature exec path featureId st
     = (Throw (NotFound featureId), reported)
  /\ commitFeature exec path featureId st
     = (Throw (NotFound featureId), reported)
  /\ runFollowUpWork exec path featureId st = (Ok tt, reported).
Proof.
  intros Hfree Hfind reported. subst reported.
  repeat split.
  - unfold runFeature, bind at 1. rewrite reserve_free by done.
    unfold_ops. simpl. rewrite Hfind. simpl.
    by rewrite delete_insert_id.
  - unfold verifyFeature, bind at 1. rewrite reserve_free by done.
    unfold_ops. simpl. rewrite Hfind. simpl.
    by rewrite delete_insert_id.
  - unfold resumeFeature, bind at 1. rewrite reserve_free by done.
    unfold_ops. simpl. rewrite Hfind. simpl.
    by rewrite delete_insert_id.
  - unfold_ops. simpl. rewrite Hfind. simpl.
    by rewrite delete_insert_id.
  - unfold_ops. simpl. rewrite Hfind. simpl.
    by rewrite delete_id.
Qed.

(** A run and a follow-up asked for an id the board does not have. *)
Lemma operation_on_missing_feature_witness :
  runFeature (always (Ok passing)) "proj" "ghost" (board_f backlog false)
  = (Throw (NotFound "ghost"),
     log (SendToRenderer (auto_mode_error "ghost" (NotFound "ghost")))
       (board_f backlog false))
  /\ runFollowUpWork (always (Ok passing)) "proj" "ghost" (board_f backlog false)
     = (Ok tt,
        log (SendToRenderer (auto_mode_error "ghost" (NotFound "ghost")))
          (board_f backlog false)).
Proof.
  pose proof (operation_on_missing_feature (always (Ok passing)) "proj" "ghost"
                (board_f backlog false)) as H.
  destruct H as (H1 & _ & _ & _ & H5); [reflexivity | reflexivity |].
  exact (conj H1 H5).
Defined.

(** ** Executor failures in the manual operations *)

(** X9. When the executor throws in a manual run, [runFeature] publishes
    the error event and throws the error on to its caller; it writes no
    status after the throw, so the feature is left as the executor left
    it, marked [in_progress] by the run and not returned to the backlog;
    the handle is released and the registry is what it was. *)
Theorem manual_run_failure exec path feature st marked e left :
  let featureId := Feature.id feature in
  runningFeatures st !! featureId = None ->
  find_feature featureId (store st) = Some feature ->
  setStatus featureId in_progress (store st) = Some marked ->
  exec (invocations (trace st)) implementFeature feature marked
  = (Throw e, left) ->
  runFeature exec path featureId st
  = (Throw e,
     mkState (runningFeatures st) (maxConcurrency st) left
       (trace st ++
        [UpdateFeatureStatus featureId in_progress;
         SendToRenderer (auto_mode_feature_start featureId);
         Invoke implementFeature featureId;
         SendToRenderer (auto_mode_error featureId e)])).
Proof.
  intros featureId Hfree Hfind Hmark Hexec. subst featureId.
  unfold runFeature, bind at 1. rewrite reserve_free by done.
  unfold_ops. simpl. rewrite Hfind. simpl. rewrite Hmark. simpl.
  rewrite !invocations_app, !Nat.add_0_r, Hexec. simpl.
  rewrite delete_insert_id by done.
  unfold set_running, set_store, log. simpl. by rewrite <- !app_assoc.
Qed.

(** A manual run of "f1" whose executor throws: the error comes back and
    "f1" stays [in_progress]. *)
Lemma manual_run_failure_witness :
  runFeature (crashing_on "f1") "proj" "f1" (board_f backlog false)
  = (Throw (ExecutorFailure "crash"),
     mkState ∅ 3
       [feature "f1" in_progress [] false; feature "f2" backlog [] false]
       [UpdateFeatureStatus "f1" in_progress;
        SendToRenderer (auto_mode_feature_start "f1");
        Invoke implementFeature "f1";
        SendToRenderer (auto_mode_error "f1" (ExecutorFailure "crash"))]).
Proof.
  apply (manual_run_failure (crashing_on "f1") "proj"
           (feature "f1" backlog [] false) (board_f backlog false)
           [feature "f1" in_progress [] false; feature "f2" backlog [] false]
           (ExecutorFailure "crash")
           [feature "f1" in_progress [] false; feature "f2" backlog [] false]);
    reflexivity.
Defined.

(** ** Status after a follow-up and after a resume *)

(** X10. A follow-up that ends with a result (its completion event
    carries [passes = b]) has marked the feature [in_progress], appended
    the follow-up instructions to the context file, invoked the executor
    once, and written [waiting_approval] or [verified] (by [skipTests])
    when the result passes and [in_progress] when it does not; the store
    holds that status when the work returns. *)
Theorem follow_up_final_status exec path feature st (b : bool) msg :
  let featureId := Feature.id feature in
  let final :=
    if b
    then (if Feature.skipTests feature then waiting_approval else verified)
    else in_progress in
  find_feature featureId (store st) = Some feature ->
  In (SendToRenderer (auto_mode_feature_complete featureId b msg))
     (effects_of (runFollowUpWork exec path featureId) st) ->
  effects_of (runFollowUpWork exec path featureId) st
  = [UpdateFeatureStatus featureId in_progress;
     SendToRenderer (auto_mode_feature_start featureId);
     WriteToContextFile featureId 0;
     Invoke resumeFeatureWithContext featureId;
     UpdateFeatureStatus featureId final;
     SendToRenderer (auto_mode_feature_complete featureId b msg)]
  /\ status_of featureId (store (snd (runFollowUpWork exec path featureId st)))
     = Some final.
Proof.
  intros featureId final Hf H. subst featureId final.
  run_ops; split_In H; simplify_eq.
  all: unfold statusAfter in *.
  all: repeat match goal with H : passes _ = _ |- _ => rewrite H in * end.
  all: repeat match goal with
              | H : Feature.skipTests _ = _ |- _ => rewrite H in *
              end.
  all: split; [done | by eapply setStatus_status_of].
Qed.

(** A follow-up that does not pass leaves "f1" [in_progress]. *)
Lemma follow_up_final_status_witness :
  status_of "f1"
    (store (snd (runFollowUpWork (always (Ok failing)) "proj" "f1"
                   (board_f waiting_approval true))))
  = Some in_progress.
Proof.
  apply (follow_up_final_status (always (Ok failing)) "proj"
           (feature "f1" waiting_approval [] true)
           (board_f waiting_approval true) false "ended early").
  - reflexivity.
  - vm_compute. pick_effect.
Defined.

(** X11. A resume that returns a passing result leaves the feature
    [waiting_approval] if the feature loaded when the resume began has
    [skipTests], and [verified] otherwise. *)
Theorem resume_success_status exec path featureId st st' :
  resumeFeature exec path featureId st = (Ok true, st') ->
  exists feature,
    find_feature featureId (store st) = Some feature
    /\ status_of featureId (store st')
       = Some (if Feature.skipTests feature then waiting_approval else verified).
Proof.
  intros H. run_ops.
  match goal with
  | Hp : passes ?r = true,
    Hs : setStatus _ (statusAfter _ ?f ?r) _ = Some _ |- _ =>
      exists f; split; [done|];
      unfold statusAfter in Hs; rewrite Hp in Hs;
      by apply setStatus_status_of in Hs
  end.
Qed.

(** A passing resume of a [skipTests] feature. *)
Lemma resume_success_status_witness :
  exists feature,
    find_feature "f1" (store (board_f in_progress true)) = Some feature
    /\ status_of "f1"
         (store (snd (resumeFeature (always (Ok passing)) "proj" "f1"
                        (board_f in_progress true))))
       = Some (if Feature.skipTests feature then waiting_approval else verified).
Proof.
  apply (resume_success_status (always (Ok passing)) "proj" "f1"
           (board_f in_progress true)).
  vm_compute. reflexivity.
Defined.

(** ** Retries of a resume *)

Lemma retryLoop_trace exec path featureId feature fuel attempts r st :
  exists delta k,
    trace (snd (retryLoop exec path featureId feature fuel attempts r st))
    = trace st ++ delta
    /\ omap marker delta = seq (S attempts) k
    /\ omap announced delta = seq (S attempts) k
    /\ invocations delta = k
    /\ omap written delta = []
    /\ (k <= fuel)%nat.
Proof.
  revert attempts r st. induction fuel as [|fuel IH]; intros attempts r st.
  { exists [], 0%nat. simpl. rewrite app_nil_r. repeat split; lia. }
  rewrite retryLoop_S.
  assert (exists delta k,
             trace st = trace st ++ delta
             /\ omap marker delta = seq (S attempts) k
             /\ omap announced delta = seq (S attempts) k
             /\ invocations delta = k
             /\ omap written delta = []
             /\ (k <= S fuel)%nat) as Hstop.
  { exists [], 0%nat. rewrite app_nil_r. repeat split; lia. }
  destruct (negb (passes r) && bool_decide (attempts < maxAttempts)%nat);
    [|exact Hstop].
  unfold bind at 1, loadFeatures.
  destruct (find_feature featureId (store st)) as [updated|]; [|exact Hstop].
  destruct (bool_decide (Feature.status updated = in_progress));
    [|exact Hstop].
  unfold bind, writeToContextFile, sendToRenderer, invoke. simpl.
  destruct (exec _ resumeFeatureWithContext feature (store st)) as [[res|e] l].
  - match goal with
    | |- context [retryLoop _ _ _ _ fuel (S attempts) res ?s] =>
        destruct (IH (S attempts) res s)
          as (delta & k & Ht & Hm & Ha & Hi & Hw & Hk)
    end.
    simpl in Ht.
    exists ([WriteToContextFile featureId (S attempts);
             SendToRenderer (auto_mode_progress (Feature.id feature) (S attempts));
             Invoke resumeFeatureWithContext (Feature.id feature)] ++ delta),
           (S k).
    rewrite Ht, <- !app_assoc. simpl.
    change (list_omap Effect nat marker delta) with (omap marker delta).
    change (list_omap Effect nat announced delta) with (omap announced delta).
    change (list_omap Effect Status written delta) with (omap written delta).
    rewrite Hm, Ha, Hw. unfold invocations in *. simpl. rewrite Hi.
    repeat split; lia.
  - simpl.
    exists [WriteToContextFile featureId (S attempts);
            SendToRenderer (auto_mode_progress (Feature.id feature) (S attempts));
            Invoke resumeFeatureWithContext (Feature.id feature)], 1%nat.
    rewrite <- !app_assoc. simpl. repeat split; lia.
Qed.

Lemma resumeFeature_trace exec path featureId st :
  exists delta k,
    trace (snd (resumeFeature exec path featureId st)) = trace st ++ delta
    /\ (k <= 3)%nat
    /\ omap marker delta = seq 1 k
    /\ omap announced delta = seq 1 k
    /\ (invocations delta = 0%nat /\ k = 0%nat \/ invocations delta = S k)
    /\ length (omap written delta)
       = match fst (resumeFeature exec path featureId st) with
         | Ok _ => 1%nat
         | Throw _ => 0%nat
         end.
Proof.
  set (R := resumeFeature exec path featureId st).
  assert (R = resumeFeature exec path featureId st) as HR by done.
  clearbody R. unfold resumeFeature in HR. unfold bind at 1 in HR.
  destruct (decide (is_Some (runningFeatures st !! featureId))) as [Hrun|Hrun].
  { rewrite reserve_running in HR by done. subst R. simpl.
    exists [], 0%nat. rewrite app_nil_r.
    split; [done|]. split; [lia|]. split; [done|]. split; [done|].
      split; [by left | done]. }
  rewrite reserve_free in HR
    by (destruct (runningFeatures st !! featureId); [destruct Hrun|]; eauto).
  unfold register at 1, try_finally, try_catch, bind at 1, loadFeatures in HR.
  simpl in HR.
  destruct (find_feature featureId (store st)) as [feature|].
  2:{ unfold_ops. simpl in HR. subst R. simpl. eexists _, 0%nat.
      split; [done|]. split; [lia|]. split; [done|]. split; [done|].
      split; [by left | done]. }
  unfold bind at 1, sendToRenderer in HR. unfold bind at 1, invoke in HR.
  simpl in HR.
  destruct (exec _ resumeFeatureWithContext feature (store st)) as [[res|e] l].
  2:{ unfold_ops. simpl in HR. subst R. simpl.
      rewrite <- !app_assoc. simpl. eexists _, 0%nat.
      split; [done|]. split; [lia|]. split; [done|]. split; [done|].
      split; [by right | done]. }
  unfold bind at 1 in HR.
  match type of HR with
  | context [retryLoop _ _ _ _ maxAttempts 0 res ?s] =>
      destruct (retryLoop_trace exec path featureId feature maxAttempts 0 res s)
        as (delta & k & Ht & Hm & Ha & Hi & Hw & Hk);
      destruct (retryLoop exec path featureId feature maxAttempts 0 res s)
        as [[final|e] s2]
  end; simpl in Ht.
  all: unfold_ops; simpl in HR; repeat case_match; simplify_eq/=.
  all: rewrite ?Ht, <- ?app_assoc; simpl.
  all: eexists _, (invocations delta); split; [reflexivity|].
  all: split; [exact Hk|].
  all: simpl.
  all: change (list_omap Effect nat marker)
         with (@omap list _ Effect nat marker).
  all: change (list_omap Effect nat announced)
         with (@omap list _ Effect nat announced).
  all: change (list_omap Effect Status written)
         with (@omap list _ Effect Status written).
  all: rewrite ?omap_app; simpl; rewrite ?Hm, ?Ha, ?Hw, ?app_nil_r.
  all: repeat split; try done.
  all: right; unfold invocations; simpl;
    rewrite ?List.filter_app, ?length_app; simpl; lia.
Qed.

(** X12. In a resume, whatever the executor and the store do, the retries
    are numbered 1, 2, ... without a gap: the k-th retry appends marker k
    to the context file, announces retry k to the renderer and is
    followed by exactly one invocation of the executor; there are at most
    3 of them. *)
Theorem retries_are_numbered exec path featureId st :
  let effects := effects_of (resumeFeature exec path featureId) st in
  exists k,
    (k <= 3)%nat
    /\ omap marker effects = seq 1 k
    /\ omap announced effects = seq 1 k
    /\ (invocations effects = 0%nat /\ k = 0%nat
        \/ invocations effects = S k).
Proof.
  cbv zeta. unfold effects_of.
  destruct (resumeFeature_trace exec path featureId st)
    as (delta & k & -> & Hk & Hm & Ha & Hi & _).
  rewrite drop_app_length. by exists k.
Qed.

(** X13. [verifyFeature], [resumeFeature] and [commitFeature] write a
    status exactly once when they return a result, and write none when
    they end with an error, whatever the error (the feature already
    running or not found, the executor throwing at any attempt, the write
    itself failing): a failed verification, resume or commit leaves the
    status of the feature to others. *)
Theorem status_written_only_on_success exec path featureId st :
  status_writes (verifyFeature exec path featureId) st
  = (if returns (verifyFeature exec path featureId) st then 1 else 0)%nat
  /\ status_writes (resumeFeature exec path featureId) st
     = (if returns (resumeFeature exec path featureId) st then 1 else 0)%nat
  /\ status_writes (commitFeature exec path featureId) st
     = (if returns (commitFeature exec path featureId) st then 1 else 0)%nat.
Proof.
  unfold status_writes, returns. repeat split.
  - run_ops; done.
  - unfold effects_of.
    destruct (resumeFeature_trace exec path featureId st)
      as (delta & k & -> & _ & _ & _ & _ & Hw).
    rewrite drop_app_length, Hw.
    by destruct (fst (resumeFeature exec path featureId st)).
  - run_ops; done.
Qed.

(** ** Starting and stopping the loop *)

Lemma start_running path maxC svc :
  autoLoopRunning (snd (start path maxC svc)) = true.
Proof.
  unfold start. destruct (autoLoopRunning svc) eqn:E; [done|].
  unfold beginTick. simpl. by case_bool_decide.
Qed.

Lemma orDefault_nonzero maxC : orDefault maxC <> 0.
Proof.
  unfold orDefault. destruct maxC as [n|]; [|done].
  by case_bool_decide.
Qed.

(** X14. The switch of the loop.  Once [start] has been called, a second
    [start] is refused and changes nothing, whatever happened to the
    first; after [stop], [start] is always accepted, and the loop then
    runs with the [maxConcurrency] it was given, or with 3 when it was
    given 0 or nothing, so never with 0; and a second [stop] changes
    nothing. *)
Theorem start_stop_protocol path maxC path' maxC' controlled controlled' svc :
  start path' maxC' (snd (start path maxC svc))
  = (loop_already_running, snd (start path maxC svc))
  /\ fst (start path maxC (stop controlled svc)) = loop_started
  /\ maxConcurrency (core (snd (start path maxC (stop controlled svc))))
     = orDefault maxC
  /\ maxConcurrency (core (snd (start path maxC (stop controlled svc)))) <> 0
  /\ stop controlled' (stop controlled svc) = stop controlled svc.
Proof.
  assert (maxConcurrency (core (snd (start path maxC (stop controlled svc))))
          = orDefault maxC) as Hmax.
  { unfold start, stop, beginTick. simpl. by case_bool_decide. }
  split; [|split; [|split; [|split]]].
  - unfold start at 1. by rewrite start_running.
  - done.
  - exact Hmax.
  - rewrite Hmax. apply orDefault_nonzero.
  - unfold stop. simpl. f_equal. apply set_eq. intros i.
    rewrite elem_of_union, elem_of_filter, dom_empty_L, elem_of_empty. tauto.
Qed.

Lemma beginTick_invariant path svc :
  service_invariant svc -> service_invariant (beginTick path svc).
Proof.
  intros (Hflag & Hmax & Hticks). unfold beginTick.
  case_bool_decide as Hslots; [done|].
  repeat split; simpl; try apply Hflag; try done.
  apply Forall_app. split; [done|]. repeat constructor. simpl. lia.
Qed.

Lemma call_invariant c svc :
  service_invariant svc -> service_invariant (call c svc).
Proof.
  intros Hinv. pose proof Hinv as (Hflag & Hmax & Hticks).
  destruct c; simpl.
  - unfold start. destruct (autoLoopRunning svc) eqn:E; [done|]. simpl.
    set (svc1 := mkService _ true _ _ _).
    assert (service_invariant
              (mkService (core svc1) true (Some path)
                 (ticksInFlight svc1) (abortSignals svc1))) as H1.
    { repeat split; simpl; eauto. apply orDefault_nonzero. }
    unfold beginTick. case_bool_decide as Hslots; simpl; [exact H1|].
    destruct H1 as (H1a & H1b & H1c). repeat split; simpl; eauto.
    apply Forall_app. split; [done|]. repeat constructor.
    simpl in *. lia.
  - repeat split; simpl; try done; try (by intros [? ?]).
  - unfold stopFeature. case_match; [done|]. simpl.
    repeat split; simpl; try done; apply Hflag.
  - unfold timerFires. destruct (autoLoopInterval svc); [|done].
    destruct (autoLoopRunning svc); [|done]. by apply beginTick_invariant.
  - unfold resumeTick.
    destruct (ticksInFlight svc !! n) as [[slots p]|] eqn:E; [|done].
    repeat split; simpl; try apply Hflag.
    + destruct (startFromBacklog_spec slots p (core svc))
        as (? & st' & Hrun & _ & _ & Hm & _).
      rewrite Hrun. simpl. by rewrite Hm.
    + rewrite Forall_forall in Hticks. apply Forall_forall.
      intros t Ht. apply Hticks.
      by apply (sublist_subseteq _ _ (sublist_delete _ n)) in Ht.
  - repeat split; simpl; try done; try apply Hflag.
    destruct (confined_reserve featureId fresh_statuses path (core svc))
      as (_ & Hm & _). by rewrite Hm.
  - repeat split; simpl; try done; apply Hflag.
Qed.

(** X15. From the service as constructed, through any sequence of calls
    ([start], [stop], [stopFeature], firings of the timer, ticks resumed,
    runs registered and released), the flag of the loop is set exactly
    when its timer is armed, [maxConcurrency] is never 0, and every tick
    waiting for the store computed at least one available slot. *)
Theorem service_keeps_invariant features cs :
  let svc := calls cs (newService features) in
  (autoLoopRunning svc = true <-> is_Some (autoLoopInterval svc))
  /\ maxConcurrency (core svc) <> 0
  /\ Forall (fun t => 0 < fst t) (ticksInFlight svc).
Proof.
  cbv zeta. fold (service_invariant (calls cs (newService features))).
  assert (service_invariant (newService features)) as H0.
  { repeat split; simpl; try done; try (by intros [? ?]). }
  revert H0. generalize (newService features).
  induction cs as [|c cs IH]; intros svc Hinv; [done|].
  simpl. apply IH. by apply call_invariant.
Qed.

(** Started, stopped and started again with nothing for [maxConcurrency]:
    the loop runs, its timer is armed and [maxConcurrency] is 3. *)
Lemma service_keeps_invariant_witness :
  autoLoopRunning
    (calls [CallStart "proj" (Some 0); CallStop (fun _ => true);
            CallStart "proj" None; TimerFires; TickResumes 0]
       (newService [feature "A" backlog [] false])) = true
  /\ maxConcurrency
       (core
          (calls [CallStart "proj" (Some 0); CallStop (fun _ => true);
                  CallStart "proj" None; TimerFires; TickResumes 0]
             (newService [feature "A" backlog [] false]))) <> 0.
Proof.
  pose proof (service_keeps_invariant [feature "A" backlog [] false]
                [CallStart "proj" (Some 0); CallStop (fun _ => true);
                 CallStart "proj" None; TimerFires; TickResumes 0])
    as (Hflag & Hmax & _).
  split; [|exact Hmax]. apply Hflag. vm_compute. eauto.
Defined.

(** X16. After [stop], whatever the service was doing: [getStatus]
    reports a loop that is not running, no running feature and a count of
    0; the timer no longer begins a tick; and the abort signal has gone to
    the running features that carried an abort controller, and to no
    other feature. *)
Theorem stop_then_status controlled svc :
  getStatus (stop controlled svc) = mkStatusReport false ∅ 0
  /\ timerFires (stop controlled svc) = stop controlled svc
  /\ (forall i,
        i ∈ abortSignals (stop controlled svc)
        <-> i ∈ abortSignals svc
            \/ (is_Some (runningFeatures (core svc) !! i)
                /\ controlled i = true)).
Proof.
  split; [|split].
  - unfold getStatus, stop. simpl. by rewrite dom_empty_L, map_size_empty.
  - done.
  - intros i. unfold stop. simpl.
    rewrite elem_of_union, elem_of_filter, elem_of_dom. tauto.
Qed.

(** Stopping a service on which "f1" runs, with a controller: the abort
    goes to "f1". *)
Lemma stop_then_status_witness :
  "f1" ∈ abortSignals
           (stop (fun _ => true) (mkService board_running true None [] ∅)).
Proof.
  apply (proj2 (proj2 (stop_then_status (fun _ => true)
                         (mkService board_running true None [] ∅)))).
  right. split; [by eexists | reflexivity].
Defined.

Lemma startFromBacklog_all_fresh slots path st :
  (forall f, f ∈ featuresToStart slots (store st) ->
     runningFeatures st !! Feature.id f = None) ->
  NoDup (ids (featuresToStart slots (store st))) ->
  exists r',
    startFromBacklog slots path st
    = (Ok (featuresToStart slots (store st)), set_running r' st)
    /\ (forall f, f ∈ featuresToStart slots (store st) ->
          is_Some (r' !! Feature.id f))
    /\ size r'
       = (runningCount st + length (featuresToStart slots (store st)))%nat.
Proof.
  intros Hfresh Hnd. unfold startFromBacklog, bind, loadFeatures.
  destruct (decide (length (backlogFeatures (store st)) = 0%nat)) as [Hlen|Hlen].
  - rewrite bool_decide_eq_true_2 by done. unfold ret.
    exists (runningFeatures st). unfold featuresToStart.
    apply nil_length_inv in Hlen. rewrite Hlen, take_nil.
    split; [by destruct st|]. split.
    + intros f Hf. by apply elem_of_nil in Hf.
    + unfold runningCount. simpl. lia.
  - rewrite bool_decide_eq_false_2 by done.
    pose proof (startEach_all_fresh _ path st Hfresh Hnd) as Hall.
    destruct (startEach_registry (featuresToStart slots (store st)) path st)
      as (started & r' & Hrun & _ & _ & _ & Hreg & _ & _ & Hsize).
    rewrite Hrun in Hall |- *. simpl in Hall. inversion Hall; subst.
    exists r'. by repeat split.
Qed.

(** X17. [stop] does not call off a tick that is waiting for the store:
    when that tick resumes after the loop was stopped, it starts the
    first backlog features of the store, up to the slots it had computed
    before the stop (provided their ids are distinct), although the loop
    is reported as not running. *)
Theorem stop_leaves_tick_in_flight controlled svc n slots path :
  ticksInFlight svc !! n = Some (slots, path) ->
  NoDup (ids (featuresToStart slots (store (core svc)))) ->
  let after := resumeTick n (stop controlled svc) in
  reportLoopRunning (getStatus after) = false
  /\ reportCount (getStatus after)
     = Nat.min (Z.to_nat slots) (length (backlogFeatures (store (core svc))))
  /\ (forall f, f ∈ featuresToStart slots (store (core svc)) ->
        Feature.id f ∈ reportFeatures (getStatus after)).
Proof.
  intros Htick Hnd after. subst after.
  unfold resumeTick. simpl. rewrite Htick.
  destruct (startFromBacklog_all_fresh slots path
              (set_running ∅ (core svc))) as (r' & Hrun & Hreg & Hsize).
  { intros f _. simpl. apply lookup_empty. }
  { done. }
  unfold getStatus. simpl in *. rewrite Hrun. simpl.
  split; [done|]. split.
  - rewrite Hsize. unfold runningCount. simpl. rewrite map_size_empty.
    unfold featuresToStart. by rewrite length_take.
  - intros f Hf. apply elem_of_dom. by apply Hreg.
Qed.

(** The first tick of a loop started with room for two runs is stopped
    while it reads the store, and still starts two features. *)
Lemma stop_leaves_tick_in_flight_witness :
  reportLoopRunning
    (getStatus
       (resumeTick 0
          (stop (fun _ => true)
             (snd (start "proj" (Some 2)
                     (newService [feature "A" backlog [] false;
                                  feature "B" backlog [] false;
                                  feature "C" backlog [] false]))))))
  = false
  /\ reportCount
       (getStatus
          (resumeTick 0
             (stop (fun _ => true)
                (snd (start "proj" (Some 2)
                        (newService [feature "A" backlog [] false;
                                     feature "B" backlog [] false;
                                     feature "C" backlog [] false]))))))
     = 2%nat.
Proof.
  pose proof (stop_leaves_tick_in_flight (fun _ => true)
                (snd (start "proj" (Some 2)
                        (newService [feature "A" backlog [] false;
                                     feature "B" backlog [] false;
                                     feature "C" backlog [] false])))
                0 2 "proj") as H.
  destruct H as (H1 & H2 & _).
  - reflexivity.
  - apply (bool_decide_unpack _). vm_compute. exact I.
  - split; [exact H1 | exact H2].
Defined.

(** X18. [stopFeature] on an id without a handle reports failure and
    changes nothing.  On a running feature it reports success, removes
    its handle and no other, lowers the count by one, and signals the
    abort exactly when the execution carried a controller; the id is
    free at once, so that a new run of the feature is accepted without
    waiting for the stopped one to end. *)
Theorem stopFeature_spec controlled featureId svc :
  (runningFeatures (core svc) !! featureId = None ->
   stopFeature controlled featureId svc = (false, svc))
  /\ (is_Some (runningFeatures (core svc) !! featureId) ->
      let after := snd (stopFeature controlled featureId svc) in
      fst (stopFeature controlled featureId svc) = true
      /\ runningFeatures (core after) !! featureId = None
      /\ (forall j, j <> featureId ->
            runningFeatures (core after) !! j
            = runningFeatures (core svc) !! j)
      /\ S (reportCount (getStatus after)) = reportCount (getStatus svc)
      /\ (featureId ∈ abortSignals after
          <-> featureId ∈ abortSignals svc \/ controlled featureId = true)
      /\ forall path,
           fst (reserve featureId path (core after)) = Ok tt).
Proof.
  split.
  - intros Hnone. unfold stopFeature.
    rewrite bool_decide_eq_false_2; [done|]. rewrite Hnone. by intros [? ?].
  - intros Hsome after. subst after. unfold stopFeature.
    rewrite bool_decide_eq_true_2 by done. simpl.
    split; [done|]. split; [apply lookup_delete_eq|].
    split; [intros j Hj; by apply lookup_delete_ne|]. split; [|split].
    + unfold getStatus. simpl.
      pose proof (map_size_ne_0_lookup_2 _ _ Hsome).
      rewrite map_size_delete_Some by done. lia.
    + destruct (controlled featureId); [|intuition congruence].
      rewrite elem_of_union, elem_of_singleton. tauto.
    + intros path. rewrite reserve_free by (simpl; apply lookup_delete_eq).
      done.
Qed.

(** On a board where only "f1" runs: stopping "f2" is refused, stopping
    "f1" leaves no running feature. *)
Lemma stopFeature_spec_witness :
  stopFeature (fun _ => true) "f2" (mkService board_running true None [] ∅)
  = (false, mkService board_running true None [] ∅)
  /\ reportCount
       (getStatus
          (snd (stopFeature (fun _ => true) "f1"
                  (mkService board_running true None [] ∅)))) = 0%nat.
Proof.
  pose proof (stopFeature_spec (fun _ => true) "f2"
                (mkService board_running true None [] ∅)) as [H2 _].
  pose proof (stopFeature_spec (fun _ => true) "f1"
                (mkService board_running true None [] ∅)) as [_ H1].
  split; [apply H2; reflexivity|].
  destruct H1 as (_ & _ & _ & Hcount & _); [by eexists|].
  vm_compute in Hcount. vm_compute. congruence.
Defined.

(** ** Project analysis *)

(** X19. A project analysis, started with an id that has no handle, keeps
    to itself: when it returns or throws the registry is what it was;
    every message it sent carries the analysis id; it wrote no feature
    status and invoked no feature executor; the store is as the analyzer
    left it; and an error of the analyzer is published and thrown on to
    the caller. *)
Theorem project_analysis_is_contained analyze path analysisId st :
  runningFeatures st !! analysisId = None ->
  let run := analyzeProject analyze path analysisId in
  runningFeatures (snd (run st)) = runningFeatures st
  /\ (forall e, In e (effects_of run st) ->
        effect_id e = analysisId /\ written e = None /\ is_invoke e = false)
  /\ store (snd (run st)) = snd (analyze (store st))
  /\ fst (run st)
     = match fst (analyze (store st)) with
       | Ok result => Ok (message result)
       | Throw error => Throw error
       end.
Proof.
  intros Hfree run. subst run.
  assert (analyzeProject analyze path analysisId st
          = match analyze (store st) with
            | (Ok result, l) =>
                (Ok (message result),
                 mkState (runningFeatures st) (maxConcurrency st) l
                   (trace st ++
                    [SendToRenderer (auto_mode_feature_start analysisId);
                     SendToRenderer
                       (auto_mode_feature_complete analysisId
                          (passes result) (message result))]))
            | (Throw error, l) =>
                (Throw error,
                 mkState (runningFeatures st) (maxConcurrency st) l
                   (trace st ++
                    [SendToRenderer (auto_mode_feature_start analysisId);
                     SendToRenderer (auto_mode_error analysisId error)]))
            end) as Hrun.
  { unfold analyzeProject, bind at 1. rewrite reserve_free by done.
    unfold runProjectAnalysis. unfold_ops. simpl.
    destruct (analyze (store st)) as [[result|error] l]; simpl.
    all: rewrite delete_insert_id by done.
    all: unfold set_running, set_store, log; simpl.
    all: by rewrite <- !app_assoc. }
  unfold effects_of. rewrite Hrun.
  destruct (analyze (store st)) as [[result|error] l]; simpl.
  all: rewrite drop_app_length.
  all: split; [done|]; split; [|done].
  all: intros e He; split_In He; by subst e.
Qed.

(** An analysis whose analyzer throws. *)
Lemma project_analysis_is_contained_witness :
  fst (analyzeProject (fun l => (Throw (ExecutorFailure "no spec"), l))
         "proj" "project-analysis-1" (board_f backlog false))
  = Throw (ExecutorFailure "no spec")
  /\ runningFeatures
       (snd (analyzeProject (fun l => (Throw (ExecutorFailure "no spec"), l))
               "proj" "project-analysis-1" (board_f backlog false)))
     = ∅.
Proof.
  pose proof (project_analysis_is_contained
                (fun l => (Throw (ExecutorFailure "no spec"), l))
                "proj" "project-analysis-1" (board_f backlog false)) as H.
  destruct H as (Hreg & _ & _ & Hres); [reflexivity|].
  split; [exact Hres | exact Hreg].
Defined.

(** ** The dependency graph *)

Lemma featureMap_fold_Some (features : list Feature.t)
    (m : gmap string Feature.t) i f :
  foldl (fun m f => <[Feature.id f := f]> m) m features !! i = Some f ->
  (f ∈ features /\ Feature.id f = i) \/ m !! i = Some f.
Proof.
  revert m. induction features as [|g features IH]; intros m H; simpl in H.
  - by right.
  - apply IH in H as [[Hin Hid]|H].
    + left. split; [by right | done].
    + destruct (decide (Feature.id g = i)) as [Heq|Hne].
      * rewrite <- Heq, lookup_insert_eq in H. inversion H; subst.
        left. split; [by left | done].
      * rewrite lookup_insert_ne in H by done. by right.
Qed.

Lemma featureMap_fold_is_Some (features : list Feature.t)
    (m : gmap string Feature.t) i :
  is_Some (foldl (fun m f => <[Feature.id f := f]> m) m features !! i)
  <-> i ∈ ids features \/ is_Some (m !! i).
Proof.
  revert m. induction features as [|g features IH]; intros m; simpl.
  - unfold ids. simpl. rewrite elem_of_nil. tauto.
  - rewrite IH. unfold ids. simpl. rewrite elem_of_cons.
    destruct (decide (Feature.id g = i)) as [Heq|Hne].
    + rewrite <- Heq, lookup_insert_eq. split; eauto.
    + rewrite lookup_insert_ne by done. split; [tauto|].
      intros [[Heq|?]|?]; [congruence | tauto | tauto].
Qed.

Lemma featureMap_lookup features i f :
  featureMap features !! i = Some f -> f ∈ features /\ Feature.id f = i.
Proof.
  intros H. apply featureMap_fold_Some in H as [H|H]; [done|].
  by rewrite lookup_empty in H.
Qed.

Lemma featureMap_has features i :
  is_Some (featureMap features !! i) <-> i ∈ ids features.
Proof.
  unfold featureMap. rewrite featureMap_fold_is_Some, lookup_empty.
  split; [intros [?|[? ?]]; done | by left].
Qed.

Lemma graphEdges_endpoints features runningAutoTasks (view : list Feature.t) :
  (fun e => (source e, target e))
  <$> (view ≫= graphEdges features runningAutoTasks)
  = view ≫= (fun f =>
      (fun depId => (depId, Feature.id f))
      <$> List.filter (fun depId => bool_decide (depId ∈ ids features))
            (Feature.dependencies f)).
Proof.
  induction view as [|f view IH]; [done|].
  rewrite !bind_cons, fmap_app, IH. f_equal. clear IH.
  unfold graphEdges.
  induction (Feature.dependencies f) as [|d deps IHd]; [done|].
  cbn. cbn in IHd. destruct (featureMap features !! d) as [src|] eqn:E.
  - rewrite bool_decide_eq_true_2
      by (apply featureMap_has; rewrite E; eauto).
    cbn. by rewrite <- IHd.
  - rewrite bool_decide_eq_false_2; [done|].
    rewrite <- featureMap_has, E. by intros [? ?].
Qed.

(** X20. The graph drawn for a list of features has one node per feature,
    in the order of the list and under its id, and its edges are exactly
    the declared dependencies whose id some feature of the list carries,
    in the order of the features and of their declarations: a dependency
    on a feature that is not in view adds no edge, and no edge starts or
    ends at an id that has no node. *)
Theorem graph_nodes_and_edges resolve features runningAutoTasks :
  let graph := useGraphNodes resolve features runningAutoTasks in
  node_id <$> fst graph = ids features
  /\ (fun e => (source e, target e)) <$> snd graph
     = features ≫= (fun f =>
         (fun depId => (depId, Feature.id f))
         <$> List.filter (fun depId => bool_decide (depId ∈ ids features))
               (Feature.dependencies f))
  /\ Forall (fun e => source e ∈ (node_id <$> fst graph)
                      /\ target e ∈ (node_id <$> fst graph))
       (snd graph).
Proof.
  cbv zeta. unfold useGraphNodes. simpl.
  assert (node_id <$> (graphNode resolve features runningAutoTasks <$> features)
          = ids features) as Hnodes.
  { unfold ids. rewrite <- list_fmap_compose. by apply list_fmap_ext. }
  split; [exact Hnodes|]. rewrite Hnodes.
  split; [apply graphEdges_endpoints|].
  apply Forall_forall. intros e He.
  apply list_elem_of_bind in He as (f & He & Hf).
  unfold graphEdges in He. apply list_elem_of_omap in He as (d & Hd & He).
  destruct (featureMap features !! d) as [src|] eqn:E; [|done].
  inversion He; subst e; simpl. split.
  - apply featureMap_has. rewrite E. eauto.
  - unfold ids. apply list_elem_of_fmap. eauto.
Qed.

(** X21. What an edge of the graph shows: it runs from a declared
    dependency of its target feature to that feature; it carries the
    status of the target and the status of a feature of the list that
    has the id of the source; it is animated exactly when its source or
    its target is among the running tasks; and it is drawn in the
    success colour exactly when that source status is [verified] or
    [completed]. *)
Theorem graph_edge_data resolve features runningAutoTasks e :
  e ∈ snd (useGraphNodes resolve features runningAutoTasks) ->
  (exists f,
      f ∈ features
      /\ target e = Feature.id f
      /\ source e ∈ Feature.dependencies f
      /\ targetStatus e = Feature.status f)
  /\ (exists src,
        src ∈ features
        /\ source e = Feature.id src
        /\ sourceStatus e = Feature.status src)
  /\ edge_id e = source e +:+ "->" +:+ target e
  /\ (animated e = true
      <-> source e ∈ runningAutoTasks \/ target e ∈ runningAutoTasks)
  /\ (getEdgeColor (sourceStatus e) (targetStatus e) = "var(--status-success)"
      <-> sourceStatus e = verified \/ sourceStatus e = completed).
Proof.
  intros He. unfold useGraphNodes in He. simpl in He.
  apply list_elem_of_bind in He as (f & He & Hf).
  unfold graphEdges in He. apply list_elem_of_omap in He as (d & Hd & He).
  destruct (featureMap features !! d) as [src|] eqn:E; [|done].
  apply featureMap_lookup in E as [Hsrc Hid].
  inversion He; subst e; simpl. clear He.
  split; [by exists f|]. split; [by exists src|]. split; [done|]. split.
  - unfold includes. rewrite orb_true_iff, !bool_decide_eq_true. tauto.
  - unfold getEdgeColor.
    destruct (Feature.status src), (Feature.status f); simpl;
      split; auto; try discriminate; intros [?|?]; discriminate.
Qed.

(** X depends on Y, in view, and on Z, which is not: the graph has the
    single edge from Y to X, and it carries the status of Y. *)
Lemma graph_edge_data_witness :
  snd (useGraphNodes (fun _ _ => [])
         [feature "Y" verified [] false;
          feature "X" backlog ["Y"; "Z"] false] ["X"])
  = [mkDependencyEdge "Y->X" "Y" "X" true verified backlog]
  /\ exists src,
       src ∈ [feature "Y" verified [] false;
              feature "X" backlog ["Y"; "Z"] false]
       /\ "Y" = Feature.id src
       /\ verified = Feature.status src.
Proof.
  split; [reflexivity|].
  pose proof (graph_edge_data (fun _ _ => [])
                [feature "Y" verified [] false;
                 feature "X" backlog ["Y"; "Z"] false] ["X"]
                (mkDependencyEdge "Y->X" "Y" "X" true verified backlog)) as H.
  destruct H as (_ & Hsrc & _).
  - vm_compute. apply list_elem_of_In. simpl. auto.
  - exact Hsrc.
Defined.
